(** * A shallow embedding of the react-advance-hooks catalogue

    The hooks of the repository are modelled as small state machines over
    the state cells that [useState] allocates.  The host (React and the
    browser event loop) is represented by the events it delivers: a render
    with new parameters, a timer that fires, a promise that settles, a DOM
    event.  Each module below embeds one hook and states the properties
    that the specification claims about it. *)

From Stdlib Require Import ZArith QArith String Ascii DecimalString.
From stdpp Require Import base option list gmap strings.

Local Open Scope Z_scope.

(** ** Results of code that may throw *)

Inductive JsError :=
| ReferenceError (what : string)
| TypeError (what : string)
| SyntaxError (what : string).

Inductive Result (A : Type) :=
| Ok (a : A)
| Throw (e : JsError).
Arguments Ok {A} a.
Arguments Throw {A} e.

Definition throws {A} (r : Result A) : bool :=
  match r with Ok _ => false | Throw _ => true end.

(** [try { body } catch { handler }] *)
Definition try_catch {A} (body : Result A) (handler : JsError -> A) : A :=
  match body with Ok a => a | Throw e => handler e end.

(** ** Objects used as maps *)

(** The property names that an object literal inherits from
    [Object.prototype]: a lookup [object[name]] finds them when [object]
    has no entry of its own under [name]. *)
Definition objectPrototype : list string :=
  [ "constructor"; "hasOwnProperty"; "isPrototypeOf"; "propertyIsEnumerable";
    "toLocaleString"; "toString"; "valueOf"; "__proto__";
    "__defineGetter__"; "__defineSetter__";
    "__lookupGetter__"; "__lookupSetter__" ]%string.

(** ** useStep *)

Module UseStep.
Section WithSteps.
Context {T : Type} (steps : list T).

(** [steps.length] *)
Definition steps_length : Z := Z.of_nat (length steps).

(** The three updater functions handed to [setCurrentStepIndex]. *)
Definition next (i : Z) : Z := Z.min (i + 1) (steps_length - 1).
Definition previous (i : Z) : Z := Z.max (i - 1) 0.
Definition reset (_ : Z) : Z := 0.

Inductive Command := Next | Previous | Reset.

Definition dispatch (i : Z) (c : Command) : Z :=
  match c with
  | Next => next i
  | Previous => previous i
  | Reset => reset i
  end.

(** [useState(0)] followed by the commands the consumer issues. *)
Definition currentStepIndex (cmds : list Command) : Z :=
  foldl dispatch 0 cmds.

(** [steps[i]]: [undefined] (here [None]) outside the array. *)
Definition index_steps (i : Z) : option T :=
  if decide (0 <= i) then steps !! Z.to_nat i else None.

Record View := {
  currentStep : option T;
  viewIndex : Z;
  isFirstStep : bool;
  isLastStep : bool
}.

Definition useStep (cmds : list Command) : View :=
  let i := currentStepIndex cmds in
  {| currentStep := index_steps i;
     viewIndex := i;
     isFirstStep := bool_decide (i = 0);
     isLastStep := bool_decide (i = steps_length - 1) |}.
End WithSteps.
End UseStep.

(** ** useAdvReducer *)

Module UseAdvReducer.
Section Reducer.
Context {State Payload : Type}.

(** [Action extends { type: string }] *)
Record Action := { type : string; payload : Payload }.

(** What a call of the reducer yields.  The signature promises a [State];
    the lookup [actions[action.type]] also reaches the members that
    [actions] inherits, and their results are no states of the caller. *)
Inductive Returned :=
| Next (state : State)
| Text (text : string)
| Inherited (member : string)
| Raised (e : JsError).

(** [actions[action.type](state, action)] for a name that is no own key of
    [actions], with [actions] as the receiver: [toString] and
    [toLocaleString] answer the tag of a plain object, [__proto__] is the
    prototype object, which is truthy and cannot be called; the result of
    the other inherited methods is left as [Inherited].  A name outside
    [Object.prototype] looks up [undefined]. *)
Definition callInherited (member : string) : option Returned :=
  if decide (member = "toString" \/ member = "toLocaleString")
  then Some (Text "[object Object]")
  else if decide (member = "__proto__")
  then Some (Raised (TypeError "actions[action.type] is not a function"))
  else if decide (member ∈ objectPrototype)
  then Some (Inherited member)
  else None.

(** The reducer returned by [useAdvReducer(initialState, actions)].
    [actions] holds the own properties of the object passed in, an object
    whose prototype is [Object.prototype].  The [state] argument is optional
    in the source ([state = initialState]); [None] stands for a call that
    passes [undefined]. *)
Definition useAdvReducer (initialState : State)
    (actions : gmap string (State -> Action -> State))
    (state : option State) (action : Action) : Returned :=
  let state := default initialState state in
  match actions !! type action with
  | Some handler => Next (handler state action)
  | None =>
      match callInherited (type action) with
      | Some inherited => inherited
      | None => Next state
      end
  end.
End Reducer.
Arguments Action : clear implicits.
Arguments Returned : clear implicits.
End UseAdvReducer.

(** ** useDragDrop *)

Module UseDragDrop.
Record DragDropState := {
  isDragging : bool;
  isOver : bool;
  draggedItemId : option string;
  overDropId : option string
}.

Definition initialState : DragDropState :=
  {| isDragging := false; isOver := false;
     draggedItemId := None; overDropId := None |}.

(** [e.dataTransfer]: the drag data store of an event, keyed by format.
    The browser supplies it with each event; the hook keeps none. *)
Record DataTransfer := {
  items : gmap string string;
  effectAllowed : string
}.

Definition emptyTransfer : DataTransfer :=
  {| items := ∅; effectAllowed := "uninitialized" |}.

Definition setData (format data : string) (dt : DataTransfer) : DataTransfer :=
  {| items := <[format := data]> (items dt); effectAllowed := effectAllowed dt |}.

(** [getData] answers the empty string for a format that was never set. *)
Definition getData (format : string) (dt : DataTransfer) : string :=
  default "" (items dt !! format).

Definition handleDragStart (dragId : string) (dt : DataTransfer)
    (_ : DragDropState) : DataTransfer * DragDropState :=
  let dt := setData "text/plain" dragId dt in
  let dt := {| items := items dt; effectAllowed := "move" |} in
  (dt, {| isDragging := true; isOver := false;
          draggedItemId := Some dragId; overDropId := None |}).

(** [handleDragOver] and [handleDragLeave] test the [state.overDropId] that
    their closure captured at the render that built them; the update itself
    is functional ([setState(s => ...)]) and acts on the current state. *)
Definition handleDragOver (captured : option string) (dropId : string)
    (s : DragDropState) : DragDropState :=
  if decide (captured <> Some dropId)
  then {| isDragging := isDragging s; isOver := true;
          draggedItemId := draggedItemId s; overDropId := Some dropId |}
  else s.

Definition handleDragEnter (dropId : string) (s : DragDropState)
    : DragDropState :=
  {| isDragging := isDragging s; isOver := true;
     draggedItemId := draggedItemId s; overDropId := Some dropId |}.

Definition handleDragLeave (captured : option string) (dropId : string)
    (s : DragDropState) : DragDropState :=
  if decide (captured = Some dropId)
  then {| isDragging := isDragging s; isOver := false;
          draggedItemId := draggedItemId s; overDropId := None |}
  else s.

(** [handleDrop] yields the new state and the arguments of the [onDrop]
    call it makes. *)
Definition handleDrop (dropId : string) (dt : DataTransfer)
    (_ : DragDropState) : DragDropState * (string * string) :=
  let dragId := getData "text/plain" dt in
  ({| isDragging := false; isOver := false;
      draggedItemId := Some dragId; overDropId := Some dropId |},
   (dragId, dropId)).

(** What reaches the hook: the DOM events of the bound elements, each with
    the [dataTransfer] it carries where a handler uses it, and the renders
    of the component, which rebuild the handlers. *)
Inductive DragEvent :=
| DragStart (dragId : string) (dt : DataTransfer)
| DragOver (dropId : string)
| DragEnter (dropId : string)
| DragLeave (dropId : string)
| Drop (dropId : string) (dt : DataTransfer)
| Render.

(** The state cell, the [state.overDropId] that the latest render saw (the
    one its [handleDragOver] and [handleDragLeave] test), and the log of
    [onDrop] calls. *)
Record Machine := {
  state : DragDropState;
  seen : option string;
  dropped : list (string * string)
}.

Definition mount : Machine :=
  {| state := initialState; seen := overDropId initialState; dropped := [] |}.

(** One event.  A DOM event goes to the handlers of the latest render; a
    render reads the state cell. *)
Definition step (m : Machine) (e : DragEvent) : Machine :=
  let s := state m in
  match e with
  | DragStart dragId dt =>
      {| state := (handleDragStart dragId dt s).2;
         seen := seen m; dropped := dropped m |}
  | DragOver dropId =>
      {| state := handleDragOver (seen m) dropId s;
         seen := seen m; dropped := dropped m |}
  | DragEnter dropId =>
      {| state := handleDragEnter dropId s;
         seen := seen m; dropped := dropped m |}
  | DragLeave dropId =>
      {| state := handleDragLeave (seen m) dropId s;
         seen := seen m; dropped := dropped m |}
  | Drop dropId dt =>
      let '(s', call) := handleDrop dropId dt s in
      {| state := s'; seen := seen m; dropped := dropped m ++ [call] |}
  | Render =>
      {| state := s; seen := overDropId s; dropped := dropped m |}
  end.

Definition run (es : list DragEvent) : Machine := foldl step mount es.

(** The store of a drag that started on an element bound by [bindDrag]. *)
Definition startedWith (dragId : string) : DataTransfer :=
  (handleDragStart dragId emptyTransfer initialState).1.
End UseDragDrop.

(** ** The execution environment *)

Module Env.
(** What [useBattery] reads from a resolved [BatteryManager]. *)
Record BatteryManager := {
  level : Q;
  charging : bool;
  chargingTime : Q;
  dischargingTime : Q
}.

(** [hasGetBattery] tells whether [navigator.getBattery] is a function. *)
Record Navigator := { hasGetBattery : bool }.

(** [hasDocument] is [typeof window.document !== "undefined"]. *)
Record Window := {
  innerWidth : Z;
  innerHeight : Z;
  hasDocument : bool
}.

(** The globals the hooks touch; [None] is a global that is not defined,
    so that reading it raises a [ReferenceError]. *)
Record Env := {
  window : option Window;
  navigator : option Navigator;
  localStorage : option (gmap string string)
}.

Definition isReady (env : Env) : bool :=
  match window env with
  | Some w => hasDocument w
  | None => false
  end.

(** A server-side context: none of the browser globals exists. *)
Definition server : Env :=
  {| window := None; navigator := None; localStorage := None |}.
End Env.

(** ** useWindowSize *)

Module UseWindowSize.
Import Env.

Record WindowSize := { width : Z; height : Z }.

(** [{ width: window.innerWidth, height: window.innerHeight }] *)
Definition readWindowSize (env : Env) : Result WindowSize :=
  match window env with
  | None => Throw (ReferenceError "window is not defined")
  | Some w => Ok {| width := innerWidth w; height := innerHeight w |}
  end.

(** Activation is the first render: the argument of [useState] is
    evaluated there, before any effect runs. *)
Definition useWindowSize (env : Env) : Result WindowSize :=
  readWindowSize env.

Definition handleResize (env : Env) (_ : WindowSize) : Result WindowSize :=
  readWindowSize env.
End UseWindowSize.

(** ** useBattery *)

Module UseBattery.
Import Env.

Record BatteryState := {
  supported : bool;
  loading : bool;
  level : option Q;
  charging : option bool;
  chargingTime : option Q;
  dischargingTime : option Q
}.

Definition initialState : BatteryState :=
  {| supported := true; loading := true; level := None;
     charging := None; chargingTime := None; dischargingTime := None |}.

(** [handleBatteryChange] once [battery] is set. *)
Definition handleBatteryChange (battery : BatteryManager) : BatteryState :=
  {| supported := true; loading := false;
     level := Some (Env.level battery);
     charging := Some (Env.charging battery);
     chargingTime := Some (Env.chargingTime battery);
     dischargingTime := Some (Env.dischargingTime battery) |}.

(** The mount effect.  It yields the state after the synchronous part and
    whether a [getBattery()] promise is now pending. *)
Definition effect (env : Env) (prevState : BatteryState)
    : Result (BatteryState * bool) :=
  if negb (isReady env) then
    Ok ({| supported := false; loading := false;
           level := level prevState; charging := charging prevState;
           chargingTime := chargingTime prevState;
           dischargingTime := dischargingTime prevState |}, false)
  else
    match navigator env with
    | None => Throw (ReferenceError "navigator is not defined")
    | Some nav =>
        if hasGetBattery nav then Ok (prevState, true)
        else Throw (TypeError "_navigator.getBattery is not a function")
    end.

(** Activation: first render with the initial state, then the effect. *)
Definition useBattery (env : Env) : Result (BatteryState * bool) :=
  effect env initialState.
End UseBattery.

(** ** Storage adapters *)

Module Storage.
Import Env.

(** [localStorage.getItem(key)] *)
Definition getItem (env : Env) (key : string) : Result (option string) :=
  match localStorage env with
  | None => Throw (ReferenceError "localStorage is not defined")
  | Some store => Ok (store !! key)
  end.

(** Truthiness of [string | null]: [null] and the empty string are falsy. *)
Definition truthy (item : option string) : option string :=
  match item with
  | Some s => if decide (s = "") then None else Some s
  | None => None
  end.

Section Adapters.
Context {T : Type}.
(** [JSON.parse] and [JSON.stringify] at the type of the stored value. *)
Context (JSON_parse : string -> Result T) (JSON_stringify : T -> string).

(** [item ? JSON.parse(item) : initialValue] *)
Definition parseOrDefault (item : option string) (initialValue : T)
    : Result T :=
  match truthy item with
  | Some s => JSON_parse s
  | None => Ok initialValue
  end.

(** The lazy initializer of [useLocalStorage], wrapped in try/catch. *)
Definition useLocalStorage (env : Env) (key : string) (initialValue : T)
    : Result T :=
  Ok (try_catch
        (match getItem env key with
         | Ok item => parseOrDefault item initialValue
         | Throw e => Throw e
         end)
        (fun _ => initialValue)).

(** The lazy initializer of [usePersistedState]: no try/catch. *)
Definition usePersistedState (env : Env) (key : string) (initialValue : T)
    : Result T :=
  match getItem env key with
  | Ok saved => parseOrDefault saved initialValue
  | Throw e => Throw e
  end.

(** The write-back effect of [usePersistedState]. *)
Definition persist (key : string) (state : T) (store : gmap string string)
    : gmap string string :=
  <[key := JSON_stringify state]> store.
End Adapters.

(** [JSON.parse] and [JSON.stringify] on the texts of the two boolean
    literals; every other text used below is not JSON at all. *)
Definition JSON_parse_bool (text : string) : Result bool :=
  if decide (text = "true") then Ok true
  else if decide (text = "false") then Ok false
  else Throw (SyntaxError text).

Definition JSON_stringify_bool (b : bool) : string :=
  if b then "true" else "false".
End Storage.

(** ** Listeners and observers on DOM nodes *)

Module Dom.
Definition Node : Type := nat.

(** A registered listener: event type and the identity of the callback. *)
Definition Listener : Type := string * nat.

(** All listeners registered on all nodes, in registration order. *)
Definition Registry : Type := list (Node * Listener).

(** [addEventListener] ignores a listener that is already registered. *)
Definition addEventListener (node : Node) (type : string) (cb : nat)
    (reg : Registry) : Registry :=
  if decide ((node, (type, cb)) ∈ reg) then reg
  else reg ++ [(node, (type, cb))].

Definition removeEventListener (node : Node) (type : string) (cb : nat)
    (reg : Registry) : Registry :=
  filter (fun entry => entry <> (node, (type, cb))) reg.

Definition listenerCount (reg : Registry) : nat := length reg.

(** The targets watched by [ResizeObserver] instances: observer, node. *)
Definition Observations : Type := list (nat * Node).

Definition observe (observer : nat) (node : Node) (obs : Observations)
    : Observations :=
  if decide ((observer, node) ∈ obs) then obs else obs ++ [(observer, node)].

Definition unobserve (observer : nat) (node : Node) (obs : Observations)
    : Observations :=
  filter (fun entry => entry <> (observer, node)) obs.
End Dom.

Module UseHover.
Import Dom.

(** What the cleanup closure of the effect captured: the node read from
    [ref.current] at setup and the two callbacks. *)
Record Cleanup := {
  node : Node;
  handleMouseOver : nat;
  handleMouseOut : nat
}.

Definition effect (ref_current : option Node) (over out : nat)
    (reg : Registry) : Registry * option Cleanup :=
  match ref_current with
  | None => (reg, None)
  | Some n =>
      let reg := addEventListener n "mouseover" over reg in
      let reg := addEventListener n "mouseout" out reg in
      (reg, Some {| node := n; handleMouseOver := over; handleMouseOut := out |})
  end.

Definition cleanup (c : option Cleanup) (reg : Registry) : Registry :=
  match c with
  | None => reg
  | Some c =>
      let reg := removeEventListener (node c) "mouseover" (handleMouseOver c) reg in
      removeEventListener (node c) "mouseout" (handleMouseOut c) reg
  end.
End UseHover.

Module UseResizeObserver.
Import Dom.

(** Setup: a new observer watches [ref.current] when it is set. *)
Definition effect (ref_current : option Node) (observer : nat)
    (obs : Observations) : Observations :=
  match ref_current with
  | Some n => observe observer n obs
  | None => obs
  end.

(** Teardown reads [ref.current] again, at the time it runs. *)
Definition cleanup (ref_current : option Node) (observer : nat)
    (obs : Observations) : Observations :=
  match ref_current with
  | Some n => unobserve observer n obs
  | None => obs
  end.

(** Activation with [ref.current = atSetup], then deactivation when the
    ref holds [atTeardown]. *)
Definition activateThenDeactivate (atSetup atTeardown : option Node)
    (observer : nat) (obs : Observations) : Observations :=
  cleanup atTeardown observer (effect atSetup observer obs).
End UseResizeObserver.

(** ** Timers of the host *)

Module Timers.
Local Open Scope nat_scope.
Section Host.
Context {A : Type}.

(** A pending [setTimeout]: its handle, the time (in ms) at which it is
    due, and what its callback will do. *)
Record Timer := { id : nat; due : nat; callback : A }.

(** The timer queue is kept in firing order: by due time, and by
    registration order among timers due at the same time. *)
Record Host := { now : nat; queue : list Timer; nextId : nat }.

Definition start (t : nat) : Host := {| now := t; queue := []; nextId := 1 |}.

Fixpoint enqueue (tm : Timer) (q : list Timer) : list Timer :=
  match q with
  | [] => [tm]
  | x :: q' => if decide (due x <= due tm) then x :: enqueue tm q' else tm :: q
  end.

Definition setTimeout (cb : A) (delay : nat) (h : Host) : nat * Host :=
  (nextId h,
   {| now := now h;
      queue := enqueue {| id := nextId h; due := now h + delay; callback := cb |}
                 (queue h);
      nextId := S (nextId h) |}).

Definition clearTimeout (handle : nat) (h : Host) : Host :=
  {| now := now h;
     queue := filter (fun tm => id tm <> handle) (queue h);
     nextId := nextId h |}.

Section Run.
Context {S : Type} (fire : nat -> A -> S -> S).

(** Fire, in order, every timer that is due at time [t]; [fire] gets the
    time at which the timer was due. *)
Fixpoint runDue (t : nat) (q : list Timer) (s : S) : list Timer * S :=
  match q with
  | [] => ([], s)
  | tm :: q' =>
      if decide (due tm <= t) then runDue t q' (fire (due tm) (callback tm) s)
      else (q, s)
  end.

(** Let the clock reach [t]. *)
Definition advance (t : nat) (sys : Host * S) : Host * S :=
  let '(q, s) := runDue t (queue sys.1) sys.2 in
  ({| now := now sys.1 `max` t; queue := q; nextId := nextId sys.1 |}, s).
End Run.
End Host.
Arguments Timer : clear implicits.
Arguments Host : clear implicits.

(** What is scheduled: due time and callback of every pending timer. *)
Definition pending {A} (h : Host A) : list (nat * A) :=
  map (fun tm => (due tm, callback tm)) (queue h).

(** A burst of input updates [(time, value)] that follows the update [u]:
    each one arrives less than [delay] ms after the one before it, and each
    one changes the input value. *)
Fixpoint burst {A} (delay : nat) (u : nat * A) (rest : list (nat * A)) : Prop :=
  match rest with
  | [] => True
  | u' :: rest' =>
      (u.1 <= u'.1 /\ u'.1 < u.1 + delay) /\ u'.2 <> u.2 /\ burst delay u' rest'
  end.

#[global] Instance burst_dec {A} `{EqDecision A} (delay : nat)
    (rest : list (nat * A)) : forall u, Decision (burst delay u rest).
Proof. induction rest as [|u' rest IH]; intros u; simpl; apply _. Defined.
End Timers.

(** ** useDebounce *)

Module UseDebounce.
Local Open Scope nat_scope.
Section Hook.
Context {T : Type} `{EqDecision T} (delay : nat).

(** [value] is the input of the latest render, [handler] the timer handle
    captured by the cleanup of the latest effect run, and [commits] the
    log of [setDebouncedValue] calls with the time of each. *)
Record Hook := {
  debouncedValue : T;
  value : T;
  handler : nat;
  commits : list (nat * T)
}.

(** The timer callback [() => setDebouncedValue(value)]. *)
Definition setDebouncedValue (time : nat) (v : T) (h : Hook) : Hook :=
  {| debouncedValue := v; value := value h; handler := handler h;
     commits := commits h ++ [(time, v)] |}.

(** First render at time [t]: [useState(value)] and the first effect run. *)
Definition mount (t : nat) (v : T) : Timers.Host T * Hook :=
  let '(h, host) := Timers.setTimeout v delay (Timers.start t) in
  (host, {| debouncedValue := v; value := v; handler := h; commits := [] |}).

(** A render at time [u.1] with input [u.2].  The effect depends on
    [[value, delay]]: when the input changed, the cleanup of the previous
    run clears its timer and the effect schedules a new one. *)
Definition render (sys : Timers.Host T * Hook) (u : nat * T)
    : Timers.Host T * Hook :=
  let '(host, hook) := Timers.advance setDebouncedValue u.1 sys in
  if decide (u.2 = value hook) then (host, hook)
  else
    let host := Timers.clearTimeout (handler hook) host in
    let '(h, host) := Timers.setTimeout u.2 delay host in
    (host, {| debouncedValue := debouncedValue hook; value := u.2;
              handler := h; commits := commits hook |}).

(** Mount, the updates in order, then the clock runs on to [tEnd]. *)
Definition run (t0 : nat) (v0 : T) (updates : list (nat * T)) (tEnd : nat)
    : Timers.Host T * Hook :=
  Timers.advance setDebouncedValue tEnd (foldl render (mount t0 v0) updates).

(** Every pending timer is the one whose handle the latest effect run
    captured: there is never a second one. *)
Definition owns_queue (sys : Timers.Host T * Hook) : Prop :=
  Forall (fun tm => Timers.id tm = handler sys.2) (Timers.queue sys.1).

(** The state right after an effect run at time [u.1] for input [u.2]. *)
Definition scheduled (u : nat * T) (sys : Timers.Host T * Hook) : Prop :=
  Timers.now sys.1 = u.1 /\ value sys.2 = u.2
  /\ Timers.queue sys.1
     = [{| Timers.id := handler sys.2; Timers.due := u.1 + delay;
           Timers.callback := u.2 |}].
End Hook.
Arguments Hook : clear implicits.
End UseDebounce.

(** ** useThrottle *)

Module UseThrottle.
Local Open Scope nat_scope.
Section Hook.
Context {T : Type} `{EqDecision T} (limit : nat).

Record Hook := {
  throttledValue : T;
  value : T;
  handler : nat;
  commits : list (nat * T)
}.

(** The timer callback [() => setThrottledValue(value)]. *)
Definition setThrottledValue (time : nat) (v : T) (h : Hook) : Hook :=
  {| throttledValue := v; value := value h; handler := handler h;
     commits := commits h ++ [(time, v)] |}.

Definition mount (t : nat) (v : T) : Timers.Host T * Hook :=
  let '(h, host) := Timers.setTimeout v limit (Timers.start t) in
  (host, {| throttledValue := v; value := v; handler := h; commits := [] |}).

Definition render (sys : Timers.Host T * Hook) (u : nat * T)
    : Timers.Host T * Hook :=
  let '(host, hook) := Timers.advance setThrottledValue u.1 sys in
  if decide (u.2 = value hook) then (host, hook)
  else
    let host := Timers.clearTimeout (handler hook) host in
    let '(h, host) := Timers.setTimeout u.2 limit host in
    (host, {| throttledValue := throttledValue hook; value := u.2;
              handler := h; commits := commits hook |}).

Definition run (t0 : nat) (v0 : T) (updates : list (nat * T)) (tEnd : nat)
    : Timers.Host T * Hook :=
  Timers.advance setThrottledValue tEnd (foldl render (mount t0 v0) updates).

(** The same cells read as a [useDebounce] instance. *)
Definition toDebounce (sys : Timers.Host T * Hook)
    : Timers.Host T * UseDebounce.Hook T :=
  (sys.1, {| UseDebounce.debouncedValue := throttledValue sys.2;
             UseDebounce.value := value sys.2;
             UseDebounce.handler := handler sys.2;
             UseDebounce.commits := commits sys.2 |}).
End Hook.
Arguments Hook : clear implicits.
End UseThrottle.

(** ** Promises that have settled *)

Inductive Settled (A : Type) :=
| Fulfilled (a : A)
| Rejected (message : string).
Arguments Fulfilled {A} a.
Arguments Rejected {A} message.

(** ** useFetch *)

Module UseFetch.
Section WithData.
Context {T : Type}.

(** What the hook reads from the [Response] of [fetch]: [json] is how
    [response.json()] settles, [None] being the JSON value [null]. *)
Record Response := {
  ok : bool;
  statusText : string;
  json : Settled (option T)
}.

Record FetchState := {
  data : option T;
  loading : bool;
  error : option string
}.

Definition initialState : FetchState :=
  {| data := None; loading := true; error := None |}.

Definition failed (message : string) : FetchState :=
  {| data := None; loading := false; error := Some message |}.

(** The rest of [fetchData] once [fetch(url)] has settled: the state it
    hands to [setState], on the [try] path or the [catch] path. *)
Definition fetchData (outcome : Settled Response) : FetchState :=
  match outcome with
  | Rejected message => failed message
  | Fulfilled response =>
      if negb (ok response)
      then failed ("Error: " ++ statusText response)%string
      else
        match json response with
        | Fulfilled d => {| data := d; loading := false; error := None |}
        | Rejected message => failed message
        end
  end.

(** One instance of the hook: its state cell, whether the component is
    still mounted, the [url] of the latest effect run, and the requests
    that have not settled yet, each with the url it was issued for. *)
Record Hook := {
  state : FetchState;
  mounted : bool;
  url : option string;
  inflight : list (nat * string);
  issued : nat
}.

Definition beforeMount : Hook :=
  {| state := initialState; mounted := true; url := None;
     inflight := []; issued := 0%nat |}.

Inductive Event :=
| Render (url : string)
| Unmount
| Settle (request : nat) (outcome : Settled Response).

(** The host ignores a state update of a component that is unmounted. *)
Definition setState (s : FetchState) (h : Hook) : Hook :=
  if mounted h
  then {| state := s; mounted := mounted h; url := url h;
          inflight := inflight h; issued := issued h |}
  else h.

Definition forget (request : nat) (h : Hook) : Hook :=
  {| state := state h; mounted := mounted h; url := url h;
     inflight := filter (fun r => r.1 <> request) (inflight h);
     issued := issued h |}.

(** - [Render u]: the effect depends on [[url]]; when [u] differs from the
      url of the previous run the effect runs again and calls [fetch(u)].
      The effect returns no cleanup, so nothing is done about the request
      of the previous run.
    - [Unmount]: there is no cleanup to run.
    - [Settle]: the awaiting [fetchData] resumes and calls [setState]. *)
Definition step (h : Hook) (e : Event) : Hook :=
  match e with
  | Render u =>
      if negb (mounted h) then h
      else if decide (url h = Some u) then h
      else {| state := state h; mounted := true; url := Some u;
              inflight := inflight h ++ [(issued h, u)];
              issued := S (issued h) |}
  | Unmount =>
      {| state := state h; mounted := false; url := url h;
         inflight := inflight h; issued := issued h |}
  | Settle request outcome =>
      if decide (request ∈ (inflight h).*1)
      then setState (fetchData outcome) (forget request h)
      else h
  end.

Definition run (es : list Event) : Hook := foldl step beforeMount es.
End WithData.
Arguments Response : clear implicits.
Arguments FetchState : clear implicits.
Arguments Hook : clear implicits.
Arguments Event : clear implicits.
End UseFetch.

(** ** useAxios *)

Module UseAxios.
Section WithData.
Context {T : Type}.

(** The four [useState] cells of the hook. *)
Record Cells := {
  data : option T;
  loading : bool;
  error : option string;
  cancelled : bool
}.

Definition initialCells : Cells :=
  {| data := None; loading := false; error := None; cancelled := false |}.

(** How the awaited [axiosInstance(...)] call settles. *)
Inductive Outcome :=
| Responded (responseData : T)
| Failed (isAxiosError : bool) (message : string).

Definition cancelRequest (s : Cells) : Cells :=
  {| data := data s; loading := loading s; error := error s;
     cancelled := true |}.

(** [makeRequest] up to its [await].  [captured] is the value of
    [cancelled] in the render that built this [makeRequest]; the boolean
    result tells whether a request was sent. *)
Definition makeRequest_start (captured : bool) (s : Cells) : Cells * bool :=
  if captured then (s, false)
  else ({| data := data s; loading := true; error := None;
           cancelled := cancelled s |}, true).

(** [makeRequest] after its [await]: the [try], [catch] and [finally]
    blocks test the same captured constant. *)
Definition makeRequest_settle (captured : bool) (o : Outcome) (s : Cells)
    : Cells :=
  let s :=
    match o with
    | Responded d =>
        if negb captured
        then {| data := Some d; loading := loading s; error := error s;
                cancelled := cancelled s |}
        else s
    | Failed isAxiosError message =>
        if negb captured
        then {| data := data s; loading := loading s;
                error := Some (if isAxiosError then message
                               else "An error occurred");
                cancelled := cancelled s |}
        else s
    end in
  if negb captured
  then {| data := data s; loading := false; error := error s;
          cancelled := cancelled s |}
  else s.

(** An instance: the cells, whether it is mounted, and the requests in
    flight, each with the constant its closure captured. *)
Record Hook := {
  cells : Cells;
  mounted : bool;
  inflight : list (nat * bool);
  issued : nat
}.

Definition mount : Hook :=
  {| cells := initialCells; mounted := true; inflight := []; issued := 0%nat |}.

Inductive Event :=
| MakeRequest
| CancelRequest
| Unmount
| Settle (request : nat) (outcome : Outcome).

(** Every [set...] call goes through the host, which ignores it once the
    component is unmounted; this includes the [setCancelled(true)] that the
    unmount cleanup requests.  [MakeRequest] calls the [makeRequest] of the
    latest render. *)
Definition step (h : Hook) (e : Event) : Hook :=
  if negb (mounted h) then
    match e with
    | Settle request _ =>
        {| cells := cells h; mounted := false;
           inflight := filter (fun r => r.1 <> request) (inflight h);
           issued := issued h |}
    | _ => h
    end
  else
    match e with
    | MakeRequest =>
        let captured := cancelled (cells h) in
        let '(s, sent) := makeRequest_start captured (cells h) in
        if sent
        then {| cells := s; mounted := true;
                inflight := inflight h ++ [(issued h, captured)];
                issued := S (issued h) |}
        else h
    | CancelRequest =>
        {| cells := cancelRequest (cells h); mounted := true;
           inflight := inflight h; issued := issued h |}
    | Unmount =>
        {| cells := cells h; mounted := false;
           inflight := inflight h; issued := issued h |}
    | Settle request outcome =>
        match list_find (fun r => r.1 = request) (inflight h) with
        | Some (_, (_, captured)) =>
            {| cells := makeRequest_settle captured outcome (cells h);
               mounted := true;
               inflight := filter (fun r => r.1 <> request) (inflight h);
               issued := issued h |}
        | None => h
        end
    end.

Definition run (es : list Event) : Hook := foldl step mount es.
End WithData.
Arguments Cells : clear implicits.
Arguments Outcome : clear implicits.
Arguments Hook : clear implicits.
Arguments Event : clear implicits.
End UseAxios.

(** ** useAxios, render by render *)

(** [UseAxios.step] hands a [MakeRequest] to the [makeRequest] of a render
    that is up to date.  A consumer can also call the [makeRequest] it got
    from an earlier render, or call [cancelRequest] and [makeRequest] in one
    handler.  Here each render is an event, and a call names the render
    whose [makeRequest] it is. *)
Module UseAxiosRenders.
Section WithData.
Context {T : Type}.

(** An instance: the cells, whether it is mounted, the value of
    [cancelled] that each render so far has seen (the constant that the
    [makeRequest] of that render tests), and the requests in flight, each
    with the constant of its closure. *)
Record Hook := {
  cells : UseAxios.Cells T;
  mounted : bool;
  renders : list bool;
  inflight : list (nat * bool);
  issued : nat
}.

(** The first render sees [cancelled = false]. *)
Definition mount : Hook :=
  {| cells := UseAxios.initialCells; mounted := true; renders := [false];
     inflight := []; issued := 0%nat |}.

Inductive Event :=
| Render
| MakeRequest (render : nat)
| CancelRequest
| Unmount
| Settle (request : nat) (outcome : UseAxios.Outcome T).

(** The host ignores the [set...] calls of an unmounted component. *)
Definition commit (h : Hook) (s : UseAxios.Cells T) : UseAxios.Cells T :=
  if mounted h then s else cells h.

(** A closure outlives the component: a [makeRequest] whose constant is
    [false] sends its request also after unmount, only its [set...] calls
    are lost. *)
Definition step (h : Hook) (e : Event) : Hook :=
  match e with
  | Render =>
      if mounted h
      then {| cells := cells h; mounted := true;
              renders := renders h ++ [UseAxios.cancelled (cells h)];
              inflight := inflight h; issued := issued h |}
      else h
  | MakeRequest render =>
      match renders h !! render with
      | Some captured =>
          let '(s, sent) := UseAxios.makeRequest_start captured (cells h) in
          if sent
          then {| cells := commit h s; mounted := mounted h;
                  renders := renders h;
                  inflight := inflight h ++ [(issued h, captured)];
                  issued := S (issued h) |}
          else h
      | None => h
      end
  | CancelRequest =>
      {| cells := commit h (UseAxios.cancelRequest (cells h));
         mounted := mounted h; renders := renders h;
         inflight := inflight h; issued := issued h |}
  | Unmount =>
      {| cells := cells h; mounted := false; renders := renders h;
         inflight := inflight h; issued := issued h |}
  | Settle request outcome =>
      match list_find (fun r => r.1 = request) (inflight h) with
      | Some (_, (_, captured)) =>
          {| cells := commit h
               (UseAxios.makeRequest_settle captured outcome (cells h));
             mounted := mounted h; renders := renders h;
             inflight := filter (fun r => r.1 <> request) (inflight h);
             issued := issued h |}
      | None => h
      end
  end.

Definition run (es : list Event) : Hook := foldl step mount es.

(** The instance as [UseAxios] sees it, without the renders. *)
Definition current (h : Hook) : UseAxios.Hook T :=
  {| UseAxios.cells := cells h; UseAxios.mounted := mounted h;
     UseAxios.inflight := inflight h; UseAxios.issued := issued h |}.
End WithData.
Arguments Hook : clear implicits.
Arguments Event : clear implicits.
End UseAxiosRenders.

(** ** useFetchRetry *)

Module UseFetchRetry.

(** A number inside a template literal. *)
Definition show (n : N) : string := NilZero.string_of_uint (N.to_uint n).

Section WithData.
Context {T : Type}.

(** What the hook reads from the [Response] of [fetch]: [json] is how
    [response.json()] settles, [None] being the JSON value [null]. *)
Record Response := { ok : bool; status : N; json : Settled (option T) }.

Record State := {
  data : option T;
  error : option string;
  loading : bool
}.

Definition initialState : State :=
  {| data := None; error := None; loading := true |}.

Definition succeeded (d : option T) : State :=
  {| data := d; error := None; loading := false |}.

Definition failed (message : string) : State :=
  {| data := None; error := Some message; loading := false |}.

(** The body of the [try] block for one settled [fetch]: the message of
    the error it throws, or the parsed data. *)
Definition attempt (outcome : Settled Response) : string + option T :=
  match outcome with
  | Rejected message => inl message
  | Fulfilled response =>
      if negb (ok response)
      then inl ("HTTP error! status: " ++ show (status response))%string
      else
        match json response with
        | Fulfilled d => inr d
        | Rejected message => inl message
        end
  end.

(** The progress of one [fetchData] call: the [setState] calls made so
    far, the number of [fetch] calls made, and the local [attempts]. *)
Record Run := {
  commits : list State;
  calls : nat;
  attempts : Z
}.

Definition started : Run := {| commits := []; calls := 0%nat; attempts := 0 |}.

Section Loop.
(** [retries], and how the [n]-th [fetch] of this call settles. *)
Context (retries : Z) (net : nat -> Settled Response).

(** [while (attempts < retries) { try { ... return } catch { ... } }];
    [None] when [fuel] iterations were not enough. *)
Fixpoint loop (fuel : nat) (r : Run) : option Run :=
  if decide (attempts r < retries) then
    match fuel with
    | O => None
    | S fuel =>
        match attempt (net (calls r)) with
        | inr d =>
            Some {| commits := commits r ++ [succeeded d];
                    calls := S (calls r); attempts := attempts r |}
        | inl message =>
            let attempts' := attempts r + 1 in
            loop fuel
              {| commits := if decide (attempts' >= retries)
                            then commits r ++ [failed message]
                            else commits r;
                 calls := S (calls r); attempts := attempts' |}
        end
    end
  else Some r.

Definition fetchData : option Run := loop (Z.to_nat retries) started.
End Loop.

(** How one settled [fetch] counts for the caller: it serves a body, or it
    fails with a message, which is the reason of a rejected [fetch], the
    text made from the status of a response that is not [ok], or the reason
    of a rejected [response.json()]. *)
Definition serves (outcome : Settled Response) (d : option T) : Prop :=
  exists response,
    outcome = Fulfilled response
    /\ ok response = true /\ json response = Fulfilled d.

Definition fails (outcome : Settled Response) (message : string) : Prop :=
  outcome = Rejected message
  \/ (exists response,
        outcome = Fulfilled response /\ ok response = false
        /\ message = ("HTTP error! status: " ++ show (status response))%string)
  \/ (exists response,
        outcome = Fulfilled response /\ ok response = true
        /\ json response = Rejected message).

(** An instance: its state cell, the dependencies [[url, options, retries]]
    of the latest effect run, and the completed [fetchData] calls with
    their urls.  React compares dependencies with [Object.is], so the
    [options] object counts by its identity, here a number that names the
    object. *)
Record Hook := {
  state : State;
  deps : option (string * nat * Z);
  runs : list (string * Run)
}.

Definition beforeMount : Hook :=
  {| state := initialState; deps := None; runs := [] |}.

(** A render with [(url, options, retries)]; [network url options n] is
    how the [n]-th [fetch(url, options)] of a call settles.  Each effect run
    calls [fetchData] afresh, and the call is followed to its end. *)
Definition render (network : string -> nat -> nat -> Settled Response)
    (h : Hook) (p : string * nat * Z) : option Hook :=
  let '(url, options, retries) := p in
  if decide (deps h = Some p) then Some h
  else
    match fetchData retries (network url options) with
    | Some r =>
        Some {| state := List.last (commits r) (state h);
                deps := Some p;
                runs := runs h ++ [(url, r)] |}
    | None => None
    end.
End WithData.
Arguments Response : clear implicits.
Arguments State : clear implicits.
Arguments Run : clear implicits.
Arguments Hook : clear implicits.
End UseFetchRetry.

(** ** useToggle, useArray, usePrevious, useKeyPress *)

Module UseToggle.
(** The updater [(prev) => !prev] handed to [setValue]. *)
Definition toggle (prev : bool) : bool := negb prev.

(** [useState(initialValue)] followed by [n] calls of [toggle]. *)
Definition useToggle (initialValue : bool) (n : nat) : bool :=
  Nat.iter n toggle initialValue.
End UseToggle.

Module UseArray.
Section WithItem.
Context {T : Type}.

(** [(prev) => [...prev, item]] *)
Definition push (item : T) (prev : list T) : list T := prev ++ [item].

(** [prev.filter((_, i) => i !== index)], the elements being visited from
    position [i] on. *)
Fixpoint removeFrom (i : nat) (index : Z) (prev : list T) : list T :=
  match prev with
  | [] => []
  | x :: rest =>
      if decide (Z.of_nat i <> index) then x :: removeFrom (S i) index rest
      else removeFrom (S i) index rest
  end.

Definition removeByIndex (index : Z) (prev : list T) : list T :=
  removeFrom 0 index prev.

Definition clear (_ : list T) : list T := [].

Inductive Command :=
| Set_ (newArray : list T)
| Push (item : T)
| RemoveByIndex (index : Z)
| Clear.

Definition dispatch (array : list T) (c : Command) : list T :=
  match c with
  | Set_ newArray => newArray
  | Push item => push item array
  | RemoveByIndex index => removeByIndex index array
  | Clear => clear array
  end.

Definition useArray (initialArray : list T) (cmds : list Command) : list T :=
  foldl dispatch initialArray cmds.
End WithItem.
Arguments Command : clear implicits.
End UseArray.

Module UsePrevious.
Section WithValue.
Context {T : Type}.

(** One render with input [value]: the hook returns [ref.current] as it is
    during the render, and the effect that runs afterwards stores [value]. *)
Definition render (ref : option T) (value : T) : option T * option T :=
  (ref, Some value).

(** What the successive renders return, starting from [ref]. *)
Fixpoint returns (ref : option T) (values : list T) : list (option T) :=
  match values with
  | [] => []
  | value :: rest =>
      let '(result, ref') := render ref value in
      result :: returns ref' rest
  end.

(** [useRef()] starts out undefined. *)
Definition usePrevious (values : list T) : list (option T) :=
  returns None values.
End WithValue.
End UsePrevious.

Module UseKeyPress.
Inductive KeyEvent :=
| KeyDown (key : string)
| KeyUp (key : string).

Definition handleKeyDown (targetKey key : string) (isKeyPressed : bool) : bool :=
  if decide (key = targetKey) then true else isKeyPressed.

Definition handleKeyUp (targetKey key : string) (isKeyPressed : bool) : bool :=
  if decide (key = targetKey) then false else isKeyPressed.

Definition step (targetKey : string) (isKeyPressed : bool) (e : KeyEvent) : bool :=
  match e with
  | KeyDown key => handleKeyDown targetKey key isKeyPressed
  | KeyUp key => handleKeyUp targetKey key isKeyPressed
  end.

(** [useState(false)] followed by the key events the window delivers. *)
Definition useKeyPress (targetKey : string) (es : list KeyEvent) : bool :=
  foldl (step targetKey) false es.
End UseKeyPress.

(** ** useForm *)

Module UseForm.
Section WithValue.
Context {V : Type}.

Record FormState := {
  values : gmap string V;
  errors : gmap string string
}.

Definition initialState (initialValues : gmap string V) : FormState :=
  {| values := initialValues; errors := ∅ |}.

Definition handleChange (name : string) (value : V) (prev : FormState)
    : FormState :=
  {| values := <[name := value]> (values prev); errors := errors prev |}.


End WithValue.
Arguments FormState : clear implicits.
End UseForm.

(** ** Writing to the stores *)

Module StorageWrite.
Import Env Storage.

(** [localStorage.setItem(key, value)] *)
Definition setItem (env : Env) (key value : string) : Result Env :=
  match localStorage env with
  | None => Throw (ReferenceError "localStorage is not defined")
  | Some store =>
      Ok {| window := window env; navigator := navigator env;
            localStorage := Some (<[key := value]> store) |}
  end.

(** A window that also has (or lacks) [window.sessionStorage]. *)
Record SessionEnv := {
  env : Env;
  sessionStorage : option (gmap string string)
}.

Definition sessionGetItem (s : SessionEnv) (key : string)
    : Result (option string) :=
  match sessionStorage s with
  | None => Throw (TypeError "window.sessionStorage is undefined")
  | Some store => Ok (store !! key)
  end.

Definition sessionSetItem (s : SessionEnv) (key value : string)
    : Result SessionEnv :=
  match sessionStorage s with
  | None => Throw (TypeError "window.sessionStorage is undefined")
  | Some store =>
      Ok {| env := env s; sessionStorage := Some (<[key := value]> store) |}
  end.

Section Adapters.
Context {T : Type}.
Context (JSON_parse : string -> Result T) (JSON_stringify : T -> string).

(** [setValue] of [useLocalStorage]: the state is set first, then the store
    is written; an error of the write is caught and logged.  The result is
    the new state and the environment afterwards. *)
Definition setValue (e : Env) (key : string) (value : T) : T * Env :=
  (value, try_catch (setItem e key (JSON_stringify value)) (fun _ => e)).

(** The write-back effect of [usePersistedState], which catches nothing. *)
Definition persistEffect (e : Env) (key : string) (state : T) : Result Env :=
  setItem e key (JSON_stringify state).

(** The lazy initializer of [useSessionStorage]. *)
Definition useSessionStorage (s : SessionEnv) (key : string) (initialValue : T)
    : T :=
  if negb (isReady (env s)) then initialValue
  else
    try_catch
      (match sessionGetItem s key with
       | Ok item => parseOrDefault JSON_parse item initialValue
       | Throw err => Throw err
       end)
      (fun _ => initialValue).

(** [setValue] of [useSessionStorage]; [value] is a value or an updater
    applied to the stored value of the render that built [setValue]. *)
Definition sessionSetValue (s : SessionEnv) (key : string)
    (value : T + (T -> T)) (storedValue : T) : T * SessionEnv :=
  let valueToStore :=
    match value with inl v => v | inr update => update storedValue end in
  (valueToStore,
   if isReady (env s)
   then try_catch (sessionSetItem s key (JSON_stringify valueToStore))
          (fun _ => s)
   else s).
End Adapters.
End StorageWrite.

(** ** Scroll locks *)

Module ScrollLock.
(** The state here is [document.body.style.overflow], the inline style.
    An effect yields the new style and what its cleanup closure captured. *)
Definition useScrollLock_effect (lock : bool) (overflow : string)
    : string * option string :=
  if lock then ("hidden"%string, Some overflow) else (overflow, None).

Definition useScrollLock_cleanup (captured : option string) (overflow : string)
    : string :=
  match captured with
  | Some originalOverflow => originalOverflow
  | None => overflow
  end.

Section Computed.
(** [window.getComputedStyle(document.body).overflow] as a function of the
    inline style, the style sheets being fixed. *)
Context (computedOverflow : string -> string).

(** [useLockBodyScroll]: the captured original is the computed style. *)
Definition useLockBodyScroll_effect (hasDocument lock : bool)
    (overflow : string) : string * option string :=
  if negb hasDocument then (overflow, None)
  else
    let originalStyle := computedOverflow overflow in
    if lock then ("hidden"%string, Some originalStyle) else (overflow, None).

Definition useLockBodyScroll_cleanup (captured : option string)
    (overflow : string) : string :=
  match captured with
  | Some originalStyle => originalStyle
  | None => overflow
  end.
End Computed.
End ScrollLock.

(** ** useIntersectionObserver *)

Module UseIntersectionObserver.
Import Dom.

(** Setup: the node in [ref.current] is kept in [current] and observed. *)
Definition effect (ref_current : option Node) (observer : nat)
    (obs : Observations) : Observations * option Node :=
  match ref_current with
  | Some current => (observe observer current obs, Some current)
  | None => (obs, None)
  end.

(** Teardown uses the [current] that the setup kept. *)
Definition cleanup (current : option Node) (observer : nat)
    (obs : Observations) : Observations :=
  match current with
  | Some n => unobserve observer n obs
  | None => obs
  end.
End UseIntersectionObserver.

(** ** useTimeout *)

Module UseTimeout.
Local Open Scope nat_scope.
Section Hook.
Context {C : Type}.

(** [savedCallback] is the ref, [timer] the handle captured by the cleanup
    of the latest run of the second effect, and [calls] the log of callback
    invocations with the time of each. *)
Record Hook := {
  savedCallback : option C;
  delay : option nat;
  timer : option nat;
  calls : list (nat * C)
}.

(** The timer callback [() => savedCallback.current?.()]. *)
Definition tick (time : nat) (_ : unit) (h : Hook) : Hook :=
  match savedCallback h with
  | Some cb =>
      {| savedCallback := savedCallback h; delay := delay h; timer := timer h;
         calls := calls h ++ [(time, cb)] |}
  | None => h
  end.

(** The second effect: nothing for a null delay. *)
Definition schedule (d : option nat) (host : Timers.Host unit)
    : Timers.Host unit * option nat :=
  match d with
  | None => (host, None)
  | Some ms => let '(h, host) := Timers.setTimeout tt ms host in (host, Some h)
  end.

Definition mount (t : nat) (callback : C) (d : option nat)
    : Timers.Host unit * Hook :=
  let '(host, h) := schedule d (Timers.start t) in
  (host, {| savedCallback := Some callback; delay := d; timer := h;
            calls := [] |}).

(** A render at time [u.1.1] with callback [u.1.2] and delay [u.2]: the
    first effect stores the callback; the second runs again only when the
    delay changed. *)
Definition render (sys : Timers.Host unit * Hook) (u : nat * C * option nat)
    : Timers.Host unit * Hook :=
  let '(host, hook) := Timers.advance tick u.1.1 sys in
  if decide (u.2 = delay hook) then
    (host, {| savedCallback := Some u.1.2; delay := delay hook;
              timer := timer hook; calls := calls hook |})
  else
    let host :=
      match timer hook with
      | Some h => Timers.clearTimeout h host
      | None => host
      end in
    let '(host, h) := schedule u.2 host in
    (host, {| savedCallback := Some u.1.2; delay := u.2; timer := h;
              calls := calls hook |}).

Definition run (t0 : nat) (callback : C) (d : option nat)
    (renders : list (nat * C * option nat)) (tEnd : nat)
    : Timers.Host unit * Hook :=
  Timers.advance tick tEnd (foldl render (mount t0 callback d) renders).
End Hook.
Arguments Hook : clear implicits.
End UseTimeout.

(** ** useTimeoutFn and useDebouncedCallback *)

Module UseTimeoutFn.
Local Open Scope nat_scope.
Section Hook.
Context {C : Type} `{EqDecision C}.

Record Hook := {
  timeoutRef : option nat;
  callback : C;
  delay : option nat;
  calls : list (nat * C)
}.

(** The timer runs the callback that [reset] handed to [setTimeout]. *)
Definition fire (time : nat) (cb : C) (h : Hook) : Hook :=
  {| timeoutRef := timeoutRef h; callback := callback h; delay := delay h;
     calls := calls h ++ [(time, cb)] |}.

Definition clear (sys : Timers.Host C * Hook) : Timers.Host C * Hook :=
  match timeoutRef sys.2 with
  | Some h => (Timers.clearTimeout h sys.1, sys.2)
  | None => sys
  end.

Definition reset (sys : Timers.Host C * Hook) : Timers.Host C * Hook :=
  let '(host, hook) := clear sys in
  match delay hook with
  | Some ms =>
      let '(h, host) := Timers.setTimeout (callback hook) ms host in
      (host, {| timeoutRef := Some h; callback := callback hook;
                delay := delay hook; calls := calls hook |})
  | None => (host, hook)
  end.

Definition mount (t : nat) (cb : C) (d : option nat) : Timers.Host C * Hook :=
  reset (Timers.start t,
         {| timeoutRef := None; callback := cb; delay := d; calls := [] |}).

Inductive Event :=
| Render (time : nat) (cb : C) (d : option nat)
| Reset (time : nat)
| Clear (time : nat)
| DebouncedCallback (time : nat).

(** - [Render]: the effect depends on [[callback, delay]]; when one of them
      changed, the old [clear] runs as cleanup and the new [reset] runs.
    - [Reset], [Clear]: the consumer calls the function of the latest render.
    - [DebouncedCallback]: the function built by [useDebouncedCallback],
      [clear()] followed by [reset()]. *)
Definition step (sys : Timers.Host C * Hook) (e : Event)
    : Timers.Host C * Hook :=
  match e with
  | Render t cb d =>
      let sys := Timers.advance fire t sys in
      if decide (cb = callback sys.2 /\ d = delay sys.2) then sys
      else
        let '(host, hook) := clear sys in
        reset (host, {| timeoutRef := timeoutRef hook; callback := cb;
                        delay := d; calls := calls hook |})
  | Reset t => reset (Timers.advance fire t sys)
  | Clear t => clear (Timers.advance fire t sys)
  | DebouncedCallback t => reset (clear (Timers.advance fire t sys))
  end.

Definition run (t0 : nat) (cb : C) (d : option nat) (es : list Event)
    : Timers.Host C * Hook :=
  foldl step (mount t0 cb d) es.

(** Every pending timer is the one [timeoutRef] points at. *)
Definition owns_queue (sys : Timers.Host C * Hook) : Prop :=
  Forall (fun tm => timeoutRef sys.2 = Some (Timers.id tm)) (Timers.queue sys.1).
End Hook.
Arguments Hook : clear implicits.
Arguments Event : clear implicits.
End UseTimeoutFn.

(** ** useHoverIntent and useClipboard *)

Module UseHoverIntent.
Local Open Scope nat_scope.

(** [timeout] is the variable of the effect closure, unset at first. *)
Record Hook := { isHovering : bool; timeout : option nat }.

(** The timer callback [() => setIsHovering(true)]. *)
Definition fire (_ : nat) (_ : unit) (h : Hook) : Hook :=
  {| isHovering := true; timeout := timeout h |}.

Definition mount (t : nat) : Timers.Host unit * Hook :=
  (Timers.start t, {| isHovering := false; timeout := None |}).

Definition handleMouseEnter (t : nat) (sys : Timers.Host unit * Hook)
    : Timers.Host unit * Hook :=
  let '(host, hook) := Timers.advance fire t sys in
  let '(h, host) := Timers.setTimeout tt 100 host in
  (host, {| isHovering := isHovering hook; timeout := Some h |}).

Definition handleMouseLeave (t : nat) (sys : Timers.Host unit * Hook)
    : Timers.Host unit * Hook :=
  let '(host, hook) := Timers.advance fire t sys in
  let host :=
    match timeout hook with
    | Some h => Timers.clearTimeout h host
    | None => host
    end in
  (host, {| isHovering := false; timeout := timeout hook |}).
End UseHoverIntent.

Module UseClipboard.
Local Open Scope nat_scope.

(** The timer callback [() => setCopied(false)]. *)
Definition fire (_ : nat) (_ : unit) (_ : bool) : bool := false.

Definition mount (t : nat) : Timers.Host unit * bool := (Timers.start t, false).

(** [copyToClipboard] resumed at time [t] after a successful
    [writeText]: the flag is set and a reset is scheduled; the handle of the
    timer is not kept. *)
Definition copied (t : nat) (sys : Timers.Host unit * bool)
    : Timers.Host unit * bool :=
  let '(host, _) := Timers.advance fire t sys in
  let '(_, host) := Timers.setTimeout tt 2000 host in
  (host, true).

(** A failed [writeText] is logged and changes nothing. *)
Definition failed (t : nat) (sys : Timers.Host unit * bool)
    : Timers.Host unit * bool :=
  Timers.advance fire t sys.
End UseClipboard.

(** ** useCountDown *)

Module UseCountDown.
(** [interval] tells whether the effect of the latest run holds a running
    [setInterval]. *)
Record Hook := { count : Z; interval : bool }.

(** The effect, which depends on [[count]]: no interval once
    [count <= 0]. *)
Definition effect (count : Z) : Hook :=
  {| count := count; interval := bool_decide (0 < count) |}.

Definition mount (start : Z) : Hook := effect start.

(** One second later: a running interval fires
    [setCount(prev => Math.max(0, prev - 1))]; when that changed [count] the
    cleanup clears the interval and the effect runs again. *)
Definition second (h : Hook) : Hook :=
  if interval h then
    let count' := Z.max 0 (count h - 1) in
    if decide (count' = count h) then h else effect count'
  else h.

Definition useCountDown (start : Z) (seconds : nat) : Hook :=
  Nat.iter seconds second (mount start).
End UseCountDown.

(** ** usePreferredLanguage and useUpdateEffect *)

Module UsePreferredLanguage.
(** [navigator.language] and [navigator.languages]; [None] is undefined. *)
Record LanguageNavigator := {
  navLanguage : option string;
  navLanguages : option (list string)
}.

Record State := {
  language : option string;
  languages : list string;
  isSupported : bool
}.

(** The three [useState] initializers; [Array.from(undefined)] raises. *)
Definition initialState (ready : bool) (nav : LanguageNavigator)
    : Result State :=
  if ready then
    match navLanguages nav with
    | None => Throw (TypeError "undefined is not iterable")
    | Some ls =>
        Ok {| language := navLanguage nav; languages := ls;
              isSupported := bool_decide (is_Some (Storage.truthy (navLanguage nav))) |}
    end
  else Ok {| language := Some ""%string; languages := []; isSupported := false |}.

(** The mount effect, its [set...] calls applied in order. *)
Definition effect (ready : bool) (nav : LanguageNavigator) (s : State) : State :=
  if ready then
    let s :=
      match Storage.truthy (navLanguage nav) with
      | Some _ =>
          {| language := navLanguage nav; languages := languages s;
             isSupported := true |}
      | None => s
      end in
    match navLanguages nav with
    | Some (l :: ls) =>
        {| language := language s; languages := l :: ls; isSupported := true |}
    | _ =>
        {| language := language s; languages := languages s;
           isSupported := false |}
    end
  else
    {| language := language s; languages := languages s; isSupported := false |}.

Definition usePreferredLanguage (env : Env.Env) (nav : LanguageNavigator)
    : Result State :=
  match initialState (Env.isReady env) nav with
  | Ok s => Ok (effect (Env.isReady env) nav s)
  | Throw e => Throw e
  end.
End UsePreferredLanguage.

Module UseUpdateEffect.
(** One run of the wrapping effect: whether [effect()] was called, and the
    [isFirstMount] ref afterwards. *)
Definition runEffect (ready : bool) (isFirstMount : bool) : bool * bool :=
  if negb ready then (false, isFirstMount)
  else if isFirstMount then (false, false)
  else (true, false).

(** The number of [effect()] calls over [n] runs of the wrapping effect
    (the mount and every later change of [deps]). *)
Fixpoint effectCalls (ready : bool) (isFirstMount : bool) (n : nat) : nat :=
  match n with
  | O => O
  | S n =>
      let '(called, isFirstMount) := runEffect ready isFirstMount in
      ((if called then 1 else 0) + effectCalls ready isFirstMount n)%nat
  end.

Definition useUpdateEffect (env : Env.Env) (n : nat) : nat :=
  effectCalls (Env.isReady env) true n.
End UseUpdateEffect.

(** ** useScript *)

Module UseScript.
Inductive ScriptStatus := Loading | Ready | Error | Unknown.

#[global] Instance ScriptStatus_eq_dec : EqDecision ScriptStatus.
Proof. solve_decision. Defined.

(** What the [status] cell can hold.  The initializer takes
    [cachedScriptStatuses[src]] when it is truthy; for a [src] that names a
    member of [Object.prototype] and has no entry of its own the lookup
    finds that member, which is no [ScriptStatus]. *)
Inductive Held :=
| Status (s : ScriptStatus)
| Member (name : string).

(** The script elements of the document (element, [src] attribute) and the
    own entries of the module-level [cachedScriptStatuses]. *)
Record World := {
  scripts : list (nat * string);
  cache : gmap string ScriptStatus;
  nextElement : nat
}.

(** [cachedScriptStatuses[src]], when truthy. *)
Definition cachedStatus (src : string) (w : World) : option Held :=
  match cache w !! src with
  | Some s => Some (Status s)
  | None => if decide (src ∈ objectPrototype) then Some (Member src) else None
  end.

(** [cachedScriptStatuses[src] = s]; assigning a string to [__proto__]
    changes nothing. *)
Definition remember (src : string) (s : ScriptStatus) (w : World) : World :=
  if decide (src = "__proto__") then w
  else {| scripts := scripts w; cache := <[src := s]> (cache w);
          nextElement := nextElement w |}.

(** A component that uses the hook: its arguments, its [status] cell, the
    [isScriptExisting] of its first render, whether its mount effect has
    run, and the script element that the effect created and listens to, if
    it created one. *)
Record Instance := {
  src : string;
  removeOnUnmount : bool;
  status : Held;
  isScriptExisting : bool;
  committed : bool;
  element : option nat
}.

(** The first script element whose [src] attribute is the given text. *)
Definition firstWithSrc (src : string) (scripts : list (nat * string))
    : option nat :=
  fst <$> List.find (fun s => bool_decide (s.2 = src)) scripts.

Section Document.
(** [document.querySelector(`script[src="${src}"]`)].  The text of [src]
    goes into the selector as it is: for a [src] without quotes,
    backslashes or line breaks the answer is [firstWithSrc]; with them the
    selector may be another one, or none at all, and then the call raises
    a [SyntaxError]. *)
Context (querySelector : string -> list (nat * string) -> Result (option nat)).

(** The body of the hook at the first render of a component. *)
Definition render (src : string) (removeOnUnmount : bool) (w : World)
    : Result Instance :=
  match querySelector src (scripts w) with
  | Throw e => Throw e
  | Ok found =>
      let existing := match found with Some _ => true | None => false end in
      Ok {| src := src; removeOnUnmount := removeOnUnmount;
            status := default (Status (if existing then Ready else Loading))
                        (cachedStatus src w);
            isScriptExisting := existing;
            committed := false; element := None |}
  end.

(** The mount effect; it tests the [isScriptExisting] of the render. *)
Definition effect (i : Instance) (w : World) : World * Instance :=
  if isScriptExisting i then
    (w, {| src := src i; removeOnUnmount := removeOnUnmount i;
           status := status i; isScriptExisting := true;
           committed := true; element := None |})
  else
    ({| scripts := scripts w ++ [(nextElement w, src i)]; cache := cache w;
        nextElement := S (nextElement w) |},
     {| src := src i; removeOnUnmount := removeOnUnmount i;
        status := status i; isScriptExisting := false;
        committed := true; element := Some (nextElement w) |}).

(** [handleLoad] and [handleError] of an instance, for its own element. *)
Definition settle (outcome : ScriptStatus) (el : nat) (i : Instance) : Instance :=
  if decide (element i = Some el)
  then {| src := src i; removeOnUnmount := removeOnUnmount i;
          status := Status outcome; isScriptExisting := isScriptExisting i;
          committed := committed i; element := element i |}
  else i.

(** The document with the components on it, and the errors that renders
    have raised. *)
Record Page := {
  world : World;
  instances : gmap nat Instance;
  raised : list (nat * JsError)
}.

Inductive Event :=
| Render (instance : nat) (src : string) (removeOnUnmount : bool)
| Effect (instance : nat)
| Loaded (el : nat)
| Failed (el : nat)
| Deactivate (instance : nat).

Definition listening (el : nat) (p : Page) : option Instance :=
  snd <$> map_to_list (filter (fun kv => element kv.2 = Some el) (instances p)) !! 0%nat.

Definition deliver (outcome : ScriptStatus) (el : nat) (p : Page) : Page :=
  match listening el p with
  | Some i =>
      {| world := remember (src i) outcome (world p);
         instances := settle outcome el <$> instances p;
         raised := raised p |}
  | None => p
  end.

(** - [Render]: the first render of a component; a component keeps its
      arguments.  Components that mount in one commit are all rendered
      before the effect of any of them runs.
    - [Effect]: the mount effect of a rendered component.
    - [Loaded], [Failed]: the script element fires [load] or [error]; the
      listeners are those of the component that created it, while it is
      mounted.
    - [Deactivate]: the cleanup removes the listeners and, if asked to, the
      script element. *)
Definition step (p : Page) (e : Event) : Page :=
  match e with
  | Render n src removeOnUnmount =>
      match instances p !! n with
      | Some _ => p
      | None =>
          match render src removeOnUnmount (world p) with
          | Ok i =>
              {| world := world p; instances := <[n := i]> (instances p);
                 raised := raised p |}
          | Throw e =>
              {| world := world p; instances := instances p;
                 raised := raised p ++ [(n, e)] |}
          end
      end
  | Effect n =>
      match instances p !! n with
      | Some i =>
          if committed i then p
          else
            let '(w, i) := effect i (world p) in
            {| world := w; instances := <[n := i]> (instances p);
               raised := raised p |}
      | None => p
      end
  | Loaded el => deliver Ready el p
  | Failed el => deliver Error el p
  | Deactivate n =>
      match instances p !! n with
      | None => p
      | Some i =>
          let w := world p in
          {| world :=
               match element i with
               | Some el =>
                   if removeOnUnmount i
                   then {| scripts := filter (fun s => s.1 <> el) (scripts w);
                           cache := cache w; nextElement := nextElement w |}
                   else w
               | None => w
               end;
             instances := delete n (instances p);
             raised := raised p |}
      end
  end.

(** A page whose document already holds the scripts [srcs]. *)
Definition page (srcs : list string) : Page :=
  {| world := {| scripts := imap (fun i s => (i, s)) srcs; cache := ∅;
                 nextElement := length srcs |};
     instances := ∅; raised := [] |}.

Definition run (srcs : list string) (es : list Event) : Page :=
  foldl step (page srcs) es.
End Document.

(** The selector engine on a [src] that the selector takes as it is. *)
Definition plainSelector (src : string) (scripts : list (nat * string))
    : Result (option nat) :=
  Ok (firstWithSrc src scripts).
End UseScript.

(** ** The battery listeners of useBattery *)

Module UseBatteryListeners.
Import Dom.

(** [getBattery()] resolved with the manager [b]: the [battery] variable is
    set and [handleBatteryChange] (the callback [cb]) is registered for the
    four events. *)
Definition resolved (b : Node) (cb : nat) (reg : Registry)
    : Registry * option Node :=
  let reg := addEventListener b "levelchange" cb reg in
  let reg := addEventListener b "chargingchange" cb reg in
  let reg := addEventListener b "chargingtimechange" cb reg in
  let reg := addEventListener b "dischargingtimechange" cb reg in
  (reg, Some b).

(** The cleanup, which looks at the [battery] variable as it is then. *)
Definition cleanup (battery : option Node) (cb : nat) (reg : Registry)
    : Registry :=
  match battery with
  | Some b =>
      let reg := removeEventListener b "levelchange" cb reg in
      let reg := removeEventListener b "chargingchange" cb reg in
      let reg := removeEventListener b "chargingtimechange" cb reg in
      removeEventListener b "dischargingtimechange" cb reg
  | None => reg
  end.
End UseBatteryListeners.

(** ** useCookie *)

Module UseCookie.
(** Whether the character [c] occurs in [s]. *)
Fixpoint occurs (c : Ascii.ascii) (s : string) : bool :=
  match s with
  | EmptyString => false
  | String c' s' => if decide (c' = c) then true else occurs c s'
  end.

(** [s.split(sep)] for a non-empty separator, scanning from the left;
    [skip] counts the characters of a separator just found that are still
    to be passed over, and [acc] is the piece read so far. *)
Fixpoint split_aux (sep : string) (skip : nat) (acc : string) (s : string)
    : list string :=
  match s with
  | EmptyString => [acc]
  | String c s' =>
      match skip with
      | S k => split_aux sep k acc s'
      | O =>
          if String.prefix sep s
          then acc :: split_aux sep (String.length sep - 1) EmptyString s'
          else split_aux sep 0 (acc ++ String c EmptyString)%string s'
      end
  end.

Definition split (sep : string) (s : string) : list string :=
  split_aux sep 0 EmptyString s.

(** The initializer of the state:
    [document.cookie.split('; ').find(row => row.startsWith(key))
       ?.split('=')[1] || null]. *)
Definition useCookie (key : string) (documentCookie : string) : option string :=
  let row :=
    List.find (fun row => String.prefix key row) (split "; " documentCookie) in
  Storage.truthy
    match row with
    | Some row => split "=" row !! 1%nat
    | None => None
    end.
End UseCookie.

(** A network for the examples: ["/ok"] answers 503 twice and then serves 7;
    ["/busy"] answers 503 every time; every other url is unreachable.  The
    [options] make no difference to it. *)
Definition flaky (url : string) (options n : nat)
    : Settled (UseFetchRetry.Response Z) :=
  let busy :=
    Fulfilled {| UseFetchRetry.ok := false; UseFetchRetry.status := 503;
                 UseFetchRetry.json := Rejected "Unexpected end of JSON input" |} in
  if decide (url = "/ok"%string) then
    if decide (n < 2)%nat then busy
    else Fulfilled {| UseFetchRetry.ok := true; UseFetchRetry.status := 200;
                      UseFetchRetry.json := Fulfilled (Some 7) |}
  else if decide (url = "/busy"%string) then busy
  else Rejected "Failed to fetch".

(** * Properties *)

(** Settles a closed decidable proposition by evaluation. *)
Ltac by_decision :=
  match goal with
  | |- ?P => apply (bool_decide_unpack P); vm_compute; exact I
  end.

Section UseStepFacts.
Import UseStep.
Context {T : Type} (steps : list T).

Lemma dispatch_in_range i c :
  0 < steps_length steps ->
  0 <= i <= steps_length steps - 1 ->
  0 <= dispatch steps i c <= steps_length steps - 1.
Proof.
  intros Hlen Hi. destruct c; unfold dispatch, next, previous, reset; lia.
Qed.

Lemma foldl_dispatch_in_range cmds : forall i,
  0 < steps_length steps ->
  0 <= i <= steps_length steps - 1 ->
  0 <= foldl (dispatch steps) i cmds <= steps_length steps - 1.
Proof.
  induction cmds as [|c cmds IH]; intros i Hlen Hi; simpl; [lia|].
  apply IH; [lia|]. now apply dispatch_in_range.
Qed.

Lemma steps_length_pos : steps <> [] -> 0 < steps_length steps.
Proof.
  unfold steps_length. destruct steps; [congruence|]. simpl length. lia.
Qed.
End UseStepFacts.

(** C9: for a non-empty [steps] list the index kept by [useStep] stays in
    [0, steps.length - 1] under every sequence of next/previous/reset;
    [next] at the last index stays there, [previous] at 0 stays at 0, and
    [reset] returns to 0. *)
Theorem useStep_index_in_range {T : Type} (steps : list T)
    (cmds : list UseStep.Command) :
  steps <> [] ->
  let last := UseStep.steps_length steps - 1 in
  0 <= UseStep.currentStepIndex steps cmds <= last
  /\ is_Some (UseStep.currentStep (UseStep.useStep steps cmds))
  /\ UseStep.next steps last = last
  /\ UseStep.previous 0 = 0
  /\ (forall i, UseStep.reset i = 0)
  /\ UseStep.currentStepIndex steps (cmds ++ [UseStep.Reset]) = 0.
Proof.
  intros Hne last. pose proof (steps_length_pos steps Hne) as Hlen.
  assert (Hrange : 0 <= UseStep.currentStepIndex steps cmds <= last).
  { unfold UseStep.currentStepIndex. apply foldl_dispatch_in_range; lia. }
  split; [exact Hrange|]. split.
  - unfold UseStep.useStep, UseStep.index_steps; simpl.
    destruct (decide _) as [_|Hneg]; [|lia].
    apply lookup_lt_is_Some. unfold last, UseStep.steps_length in *. lia.
  - split; [unfold UseStep.next, last; lia|].
    split; [reflexivity|].
    split; [intros i; reflexivity|].
    unfold UseStep.currentStepIndex. now rewrite foldl_app.
Qed.

Lemma useStep_index_in_range_witness :
  let steps := ["a"; "b"; "c"]%string in
  let cmds := [UseStep.Next; UseStep.Next; UseStep.Next; UseStep.Previous] in
  steps <> [] /\ 0 <= UseStep.currentStepIndex steps cmds <= 2.
Proof.
  split; [discriminate|].
  exact (proj1 (useStep_index_in_range ["a"; "b"; "c"]%string
    [UseStep.Next; UseStep.Next; UseStep.Next; UseStep.Previous]
    ltac:(discriminate))).
Defined.

(** With no steps at all the lower bound fails: [next] moves to -1. *)
Example useStep_empty_steps :
  UseStep.currentStepIndex (@nil nat) [UseStep.Next] = -1.
Proof. reflexivity. Qed.

(** The reducer built by [useAdvReducer] on the names it is meant for: an
    action whose type is neither an own entry of [actions] nor the name of a
    member of [Object.prototype] leaves the state unchanged, and one whose
    type is an own entry yields that handler applied to the state and the
    action. *)
Lemma useAdvReducer_dispatch {State Payload : Type} (initialState : State)
    (actions : gmap string (State -> UseAdvReducer.Action Payload -> State))
    (s : State) (a : UseAdvReducer.Action Payload) :
  (actions !! UseAdvReducer.type a = None ->
   UseAdvReducer.type a ∉ objectPrototype ->
     UseAdvReducer.useAdvReducer initialState actions (Some s) a
     = UseAdvReducer.Next s)
  /\ (forall handler, actions !! UseAdvReducer.type a = Some handler ->
     UseAdvReducer.useAdvReducer initialState actions (Some s) a
     = UseAdvReducer.Next (handler s a)).
Proof.
  unfold UseAdvReducer.useAdvReducer.
  split; [intros -> Hout|intros handler ->]; [|reflexivity].
  unfold UseAdvReducer.callInherited.
  repeat case_decide; try reflexivity; exfalso; apply Hout.
  - destruct H as [-> | ->]; by_decision.
  - rewrite H0. by_decision.
  - assumption.
Qed.

(** C10 at an inherited name: with [increment] as the only entry of
    [actions], the action type [toString] has no entry, and the reducer
    called on the state 5 answers the text [[object Object]], which is not
    the state it was given. *)
Theorem useAdvReducer_inherited_member :
  let actions : gmap string (Z -> UseAdvReducer.Action unit -> Z) :=
    {[ "increment"%string := fun s _ => s + 1 ]} in
  let action :=
    {| UseAdvReducer.type := "toString"; UseAdvReducer.payload := tt |} in
  actions !! UseAdvReducer.type action = None
  /\ UseAdvReducer.useAdvReducer 0 actions (Some 5) action
     = UseAdvReducer.Text "[object Object]"
  /\ UseAdvReducer.useAdvReducer 0 actions (Some 5) action
     <> UseAdvReducer.Next 5.
Proof.
  split; [vm_compute; reflexivity|].
  split; [vm_compute; reflexivity|].
  vm_compute. discriminate.
Qed.

(** On the same reducer, a type outside [Object.prototype] with no entry
    leaves the state as it is, and [increment] runs its handler. *)
Lemma useAdvReducer_dispatch_witness :
  let actions : gmap string (Z -> UseAdvReducer.Action unit -> Z) :=
    {[ "increment"%string := fun s _ => s + 1 ]} in
  UseAdvReducer.useAdvReducer 0 actions (Some 5)
    {| UseAdvReducer.type := "rename"; UseAdvReducer.payload := tt |}
  = UseAdvReducer.Next 5
  /\ UseAdvReducer.useAdvReducer 0 actions (Some 5)
    {| UseAdvReducer.type := "increment"; UseAdvReducer.payload := tt |}
  = UseAdvReducer.Next 6.
Proof.
  split.
  - apply (proj1 (useAdvReducer_dispatch 0
      {[ "increment"%string := fun s _ => s + 1 ]} 5
      {| UseAdvReducer.type := "rename"; UseAdvReducer.payload := tt |})).
    + vm_compute. reflexivity.
    + by_decision.
  - apply (proj2 (useAdvReducer_dispatch 0
      {[ "increment"%string := fun s _ => s + 1 ]} 5
      {| UseAdvReducer.type := "increment"; UseAdvReducer.payload := tt |})
      (fun s _ => s + 1)).
    vm_compute. reflexivity.
Defined.

(** A call that passes no state starts from [initialState]. *)
Lemma useAdvReducer_default_state {State Payload : Type} (initialState : State)
    (actions : gmap string (State -> UseAdvReducer.Action Payload -> State))
    (a : UseAdvReducer.Action Payload) :
  UseAdvReducer.useAdvReducer initialState actions None a
  = UseAdvReducer.useAdvReducer initialState actions (Some initialState) a.
Proof. reflexivity. Qed.

(** ** Drag and drop *)

Section UseDragDropFacts.
Import UseDragDrop.

Lemma run_snoc es e : run (es ++ [e]) = step (run es) e.
Proof. unfold run. now rewrite foldl_app. Qed.

Lemma step_enter_candidate m d :
  overDropId (state (step m (DragEnter d))) = Some d.
Proof. reflexivity. Qed.

Lemma step_over_candidate m d :
  seen m = overDropId (state m) ->
  overDropId (state (step m (DragOver d))) = Some d.
Proof.
  intros Hseen. simpl. unfold handleDragOver. rewrite Hseen.
  destruct (decide (overDropId (state m) <> Some d)) as [_|Heq]; [reflexivity|].
  now apply dec_stable in Heq.
Qed.

Lemma step_leave_candidate m d :
  seen m = Some d ->
  overDropId (state (step m (DragLeave d))) = None
  /\ isOver (state (step m (DragLeave d))) = false.
Proof.
  intros Hcur. simpl. unfold handleDragLeave.
  destruct (decide _) as [_|Hne]; [now split|congruence].
Qed.

Lemma step_leave_other m d :
  seen m <> Some d ->
  state (step m (DragLeave d)) = state m.
Proof.
  intros Hcur. simpl. unfold handleDragLeave.
  destruct (decide _) as [Heq|_]; [congruence|reflexivity].
Qed.

Lemma step_drop_state m d dt :
  state (step m (Drop d dt))
  = {| isDragging := false; isOver := false;
       draggedItemId := Some (getData "text/plain" dt);
       overDropId := Some d |}.
Proof. reflexivity. Qed.

Lemma step_render m :
  state (step m Render) = state m
  /\ seen (step m Render) = overDropId (state m).
Proof. now split. Qed.
End UseDragDropFacts.

(** C5, as the code has it: [overDropId] holds the drop-target candidate
    after drag-enter, and after drag-over on handlers of a render that has
    seen the current candidate; drag-leave on the candidate that the render
    of its handler saw sets it to null and [isOver] to false; the drop
    transition does not clear it: after [handleDrop] the state has
    [overDropId = dropId], with [isOver] and [isDragging] false.  A render
    is what lets the handlers see the current candidate. *)
Theorem useDragDrop_overDropId (es : list UseDragDrop.DragEvent) (d : string)
    (dt : UseDragDrop.DataTransfer) :
  let m := UseDragDrop.run es in
  let after e := UseDragDrop.state (UseDragDrop.run (es ++ [e])) in
  UseDragDrop.overDropId (after (UseDragDrop.DragEnter d)) = Some d
  /\ (UseDragDrop.seen m = UseDragDrop.overDropId (UseDragDrop.state m) ->
      UseDragDrop.overDropId (after (UseDragDrop.DragOver d)) = Some d)
  /\ (UseDragDrop.seen m = Some d ->
      UseDragDrop.overDropId (after (UseDragDrop.DragLeave d)) = None
      /\ UseDragDrop.isOver (after (UseDragDrop.DragLeave d)) = false)
  /\ after (UseDragDrop.Drop d dt)
     = {| UseDragDrop.isDragging := false; UseDragDrop.isOver := false;
          UseDragDrop.draggedItemId :=
            Some (UseDragDrop.getData "text/plain" dt);
          UseDragDrop.overDropId := Some d |}
  /\ UseDragDrop.seen (UseDragDrop.run (es ++ [UseDragDrop.Render]))
     = UseDragDrop.overDropId (UseDragDrop.state m)
  /\ after UseDragDrop.Render = UseDragDrop.state m.
Proof.
  intros m after. unfold after, m. rewrite !run_snoc.
  split; [apply step_enter_candidate|].
  split; [apply step_over_candidate|].
  split; [apply step_leave_candidate|].
  split; [apply step_drop_state|].
  split; apply step_render.
Qed.

Lemma useDragDrop_overDropId_witness :
  let es := [UseDragDrop.DragStart "card" UseDragDrop.emptyTransfer;
             UseDragDrop.DragEnter "zone"; UseDragDrop.Render] in
  UseDragDrop.overDropId (UseDragDrop.state (UseDragDrop.run es)) = Some "zone"%string
  /\ UseDragDrop.overDropId (UseDragDrop.state
       (UseDragDrop.run (es ++ [UseDragDrop.DragOver "zone"]))) = Some "zone"%string
  /\ UseDragDrop.overDropId (UseDragDrop.state
       (UseDragDrop.run (es ++ [UseDragDrop.DragLeave "zone"]))) = None.
Proof.
  split; [reflexivity|]. split.
  - apply (proj1 (proj2 (useDragDrop_overDropId
      [UseDragDrop.DragStart "card" UseDragDrop.emptyTransfer;
       UseDragDrop.DragEnter "zone"; UseDragDrop.Render] "zone"
      UseDragDrop.emptyTransfer))).
    reflexivity.
  - apply (proj1 (proj2 (proj2 (useDragDrop_overDropId
      [UseDragDrop.DragStart "card" UseDragDrop.emptyTransfer;
       UseDragDrop.DragEnter "zone"; UseDragDrop.Render] "zone"
      UseDragDrop.emptyTransfer)))).
    reflexivity.
Defined.

(** Read literally, the drop clause fails: after a drop the candidate is
    still recorded. *)
Lemma useDragDrop_drop_keeps_overDropId :
  UseDragDrop.overDropId (UseDragDrop.state (UseDragDrop.run
    [UseDragDrop.DragStart "card" UseDragDrop.emptyTransfer;
     UseDragDrop.DragEnter "zone"; UseDragDrop.Render;
     UseDragDrop.Drop "zone" (UseDragDrop.startedWith "card")])) <> None.
Proof. vm_compute. discriminate. Qed.

(** The drop reports the pair read from the drag data store. *)
Example useDragDrop_onDrop_call :
  UseDragDrop.dropped (UseDragDrop.run
    [UseDragDrop.DragStart "card" UseDragDrop.emptyTransfer;
     UseDragDrop.DragEnter "zone"; UseDragDrop.Render;
     UseDragDrop.Drop "zone" (UseDragDrop.startedWith "card")])
  = [("card", "zone")]%string.
Proof. reflexivity. Qed.

(** Handlers of one render, with no render between the events: the leave
    that follows an enter tests the candidate of before the enter and
    changes nothing. *)
Example useDragDrop_leave_without_render :
  UseDragDrop.state (UseDragDrop.run
    [UseDragDrop.DragEnter "zone"; UseDragDrop.DragLeave "zone"])
  = UseDragDrop.state (UseDragDrop.run [UseDragDrop.DragEnter "zone"]).
Proof. reflexivity. Qed.

(** ** Unsupported environments *)

(** C6, as the code has it: [useBattery] probes the environment and, where
    [isReady()] is false, reports [supported: false] with [loading: false]
    and starts nothing; [useWindowSize] has no probe and no flag, and in a
    context without [window] its activation raises a [ReferenceError]. *)
Theorem unsupported_environment (env : Env.Env) :
  (Env.isReady env = false ->
     UseBattery.useBattery env
     = Ok ({| UseBattery.supported := false; UseBattery.loading := false;
              UseBattery.level := None; UseBattery.charging := None;
              UseBattery.chargingTime := None;
              UseBattery.dischargingTime := None |}, false))
  /\ (Env.window env = None ->
     UseWindowSize.useWindowSize env
     = Throw (ReferenceError "window is not defined")).
Proof.
  split.
  - intros Hready. unfold UseBattery.useBattery, UseBattery.effect.
    now rewrite Hready.
  - intros Hwin. unfold UseWindowSize.useWindowSize, UseWindowSize.readWindowSize.
    now rewrite Hwin.
Qed.

Lemma unsupported_environment_witness :
  Env.isReady Env.server = false
  /\ Env.window Env.server = None
  /\ throws (UseBattery.useBattery Env.server) = false
  /\ throws (UseWindowSize.useWindowSize Env.server) = true.
Proof.
  split; [reflexivity|]. split; [reflexivity|]. split.
  - rewrite (proj1 (unsupported_environment Env.server) eq_refl). reflexivity.
  - rewrite (proj2 (unsupported_environment Env.server) eq_refl). reflexivity.
Defined.

(** Without [window], activation of [useWindowSize] yields no state at all. *)
Lemma useWindowSize_throws_without_window :
  Env.isReady Env.server = false
  /\ ~ exists size, UseWindowSize.useWindowSize Env.server = Ok size.
Proof.
  split; [reflexivity|]. intros [size Hsize]. discriminate Hsize.
Qed.

(** ** Storage adapters *)

Section StorageFacts.
Import Env Storage.
Context {T : Type} (JSON_parse : string -> Result T).

(** [useLocalStorage] never raises, whatever the store holds. *)
Lemma useLocalStorage_never_throws env key (initialValue : T) :
  throws (useLocalStorage JSON_parse env key initialValue) = false.
Proof. reflexivity. Qed.

(** A stored text that fails to parse yields the default. *)
Lemma useLocalStorage_corrupt_default env store key item e (initialValue : T) :
  localStorage env = Some store ->
  store !! key = Some item ->
  JSON_parse item = Throw e ->
  useLocalStorage JSON_parse env key initialValue = Ok initialValue.
Proof.
  intros Hstore Hitem Hparse.
  unfold useLocalStorage, getItem, parseOrDefault, truthy.
  rewrite Hstore, Hitem.
  destruct (decide (item = "")) as [_|_]; [reflexivity|].
  now rewrite Hparse.
Qed.

(** In [usePersistedState] the parse error reaches the caller. *)
Lemma usePersistedState_corrupt_throws env store key item e (initialValue : T) :
  localStorage env = Some store ->
  store !! key = Some item ->
  item <> "" ->
  JSON_parse item = Throw e ->
  usePersistedState JSON_parse env key initialValue = Throw e.
Proof.
  intros Hstore Hitem Hne Hparse.
  unfold usePersistedState, getItem, parseOrDefault, truthy.
  rewrite Hstore, Hitem.
  destruct (decide (item = "")) as [Heq|_]; [congruence|exact Hparse].
Qed.
End StorageFacts.

(** C7 at a corrupted entry: with the text [{oops] stored under the key,
    [useLocalStorage] yields the supplied default, while
    [usePersistedState] raises the [SyntaxError] of [JSON.parse] instead of
    yielding the default. *)
Theorem storage_corrupted_value :
  let env := {| Env.window := None; Env.navigator := None;
                Env.localStorage := Some {[ "theme"%string := "{oops"%string ]} |} in
  Storage.useLocalStorage Storage.JSON_parse_bool env "theme" false = Ok false
  /\ Storage.usePersistedState Storage.JSON_parse_bool env "theme" false
     = Throw (SyntaxError "{oops").
Proof. split; vm_compute; reflexivity. Qed.

(** ** Listener bookkeeping *)

Section DomFacts.
Import Dom.

Lemma filter_ne_absent {A} `{EqDecision A} (x : A) (l : list A) :
  x ∉ l -> filter (fun y => y <> x) l = l.
Proof.
  induction l as [|y l IH]; intros Hnotin; [reflexivity|].
  apply not_elem_of_cons in Hnotin as [Hne Hl].
  rewrite filter_cons_True by congruence. now rewrite IH.
Qed.

Lemma filter_ne_snoc {A} `{EqDecision A} (x : A) (l : list A) :
  x ∉ l -> filter (fun y => y <> x) (l ++ [x]) = l.
Proof.
  intros Hnotin. rewrite filter_app, filter_ne_absent by exact Hnotin.
  rewrite filter_cons_False by (intros Hne; now apply Hne).
  now rewrite filter_nil, app_nil_r.
Qed.

Lemma filter_ne_middle {A} `{EqDecision A} (x y : A) (l : list A) :
  x ∉ l -> x <> y -> filter (fun z => z <> x) (l ++ [x; y]) = l ++ [y].
Proof.
  intros Hnotin Hne. rewrite filter_app, filter_ne_absent by exact Hnotin.
  rewrite filter_cons_False by (intros Hxx; now apply Hxx).
  rewrite filter_cons_True by congruence. now rewrite filter_nil.
Qed.

(** [useHover] removes exactly what it added: its cleanup uses the node
    captured at setup. *)
Lemma useHover_no_residual_listeners (reg : Registry) ref_current over out :
  over <> out ->
  (forall n type, (n, (type, over)) ∉ reg) ->
  (forall n type, (n, (type, out)) ∉ reg) ->
  let '(reg', c) := UseHover.effect ref_current over out reg in
  UseHover.cleanup c reg' = reg.
Proof.
  intros Hcb Hover Hout. destruct ref_current as [n|]; [|reflexivity].
  unfold UseHover.effect, UseHover.cleanup, addEventListener,
    removeEventListener, Registry, Listener in *.
  cbn [UseHover.node UseHover.handleMouseOver UseHover.handleMouseOut].
  destruct (decide ((n, ("mouseover"%string, over)) ∈ reg)) as [Hin|_];
    [now apply Hover in Hin|].
  case_decide as Hin'.
  { apply elem_of_app in Hin' as [Hin'|Hin']; [now apply Hout in Hin'|].
    apply list_elem_of_singleton in Hin'. congruence. }
  rewrite <- app_assoc. cbn [app].
  rewrite filter_ne_middle by (auto; congruence).
  now apply filter_ne_snoc.
Qed.

(** [useResizeObserver] leaves nothing behind when the ref still holds
    the node it held at setup. *)
Lemma useResizeObserver_same_ref (obs : Observations) ref_current observer :
  (forall n, (observer, n) ∉ obs) ->
  UseResizeObserver.activateThenDeactivate ref_current ref_current observer obs
  = obs.
Proof.
  intros Hfresh. destruct ref_current as [n|]; [|reflexivity].
  unfold UseResizeObserver.activateThenDeactivate, UseResizeObserver.cleanup,
    UseResizeObserver.effect, observe, unobserve, Observations in *.
  destruct (decide _) as [Hin|_]; [now apply Hfresh in Hin|].
  now apply filter_ne_snoc.
Qed.
(** When the ref holds another node at teardown, the node observed at setup
    stays observed. *)
Lemma useResizeObserver_changed_ref (obs : Observations) a b observer :
  a <> b -> (forall n, (observer, n) ∉ obs) ->
  UseResizeObserver.activateThenDeactivate (Some a) (Some b) observer obs
  = obs ++ [(observer, a)].
Proof.
  intros Hab Hfresh.
  unfold UseResizeObserver.activateThenDeactivate, UseResizeObserver.cleanup,
    UseResizeObserver.effect, observe, unobserve, Observations in *.
  destruct (decide _) as [Hin|_]; [now apply Hfresh in Hin|].
  apply filter_ne_absent. intros Hin.
  apply elem_of_app in Hin as [Hin|Hin]; [now apply Hfresh in Hin|].
  apply list_elem_of_singleton in Hin. congruence.
Qed.
End DomFacts.

(** C8 at a ref that changed: [useResizeObserver] observes node 1 at setup;
    when [ref.current] holds node 2, or null, at teardown, its cleanup leaves
    node 1 observed, so one observation outlives the deactivation. *)
Theorem useResizeObserver_residual_observation :
  UseResizeObserver.activateThenDeactivate (Some 1%nat) (Some 2%nat) 0%nat []
    = [(0%nat, 1%nat)]
  /\ UseResizeObserver.activateThenDeactivate (Some 1%nat) None 0%nat []
    = [(0%nat, 1%nat)].
Proof. split; vm_compute; reflexivity. Qed.

(** ** Timers, debounce and throttle *)

Lemma last_nonempty_default {A} (x : A) (l : list A) (d d' : A) :
  List.last (x :: l) d = List.last (x :: l) d'.
Proof.
  revert x. induction l as [|y l IH]; intros x; [reflexivity|].
  change (List.last (y :: l) d = List.last (y :: l) d'). apply IH.
Qed.

Section TimerFacts.
Import Timers.
Local Open Scope nat_scope.
Context {A S : Type} (fire : nat -> A -> S -> S).

Lemma runDue_single_due t (tm : Timer A) s :
  due tm <= t -> runDue fire t [tm] s = ([], fire (due tm) (callback tm) s).
Proof. intros Hdue. simpl. case_decide; [reflexivity|lia]. Qed.

Lemma runDue_single_pending t (tm : Timer A) s :
  t < due tm -> runDue fire t [tm] s = ([tm], s).
Proof. intros Hdue. simpl. case_decide; [lia|reflexivity]. Qed.

(** Firing timers only ever shortens the queue from the front. *)
Lemma runDue_suffix t (q : list (Timer A)) : forall s,
  (runDue fire t q s).1 `suffix_of` q.
Proof.
  induction q as [|tm q IH]; intros s; simpl; [done|].
  case_decide; [|done]. now apply suffix_cons_r.
Qed.

Lemma clearTimeout_all handle (h : Host A) :
  Forall (fun tm => id tm = handle) (queue h) ->
  queue (clearTimeout handle h) = [].
Proof.
  unfold clearTimeout; simpl. generalize (queue h) as q.
  induction q as [|tm q IH]; intros Hall; [reflexivity|].
  apply Forall_cons in Hall as [Hid Hall].
  rewrite filter_cons_False by (intros Hne; now apply Hne). now apply IH.
Qed.
End TimerFacts.

Section DebounceFacts.
Import Timers UseDebounce.
Local Open Scope nat_scope.
Context {T : Type} `{EqDecision T} (delay : nat).

Local Abbreviation fire := (@setDebouncedValue T).

Lemma runDue_hook t (q : list (Timer T)) : forall hook,
  value (runDue fire t q hook).2 = value hook
  /\ handler (runDue fire t q hook).2 = handler hook.
Proof.
  induction q as [|tm q IH]; intros hook; simpl; [done|].
  case_decide; [|done]. now destruct (IH (fire (due tm) (callback tm) hook)).
Qed.

Lemma advance_hook t (sys : Host T * Hook T) :
  value (advance fire t sys).2 = value sys.2
  /\ handler (advance fire t sys).2 = handler sys.2.
Proof.
  unfold advance. pose proof (runDue_hook t (queue sys.1) sys.2) as Hrun.
  destruct (runDue fire t (queue sys.1) sys.2) as [q s]. exact Hrun.
Qed.

Lemma advance_now t (sys : Host T * Hook T) :
  now (advance fire t sys).1 = now sys.1 `max` t.
Proof.
  unfold advance. now destruct (runDue fire t (queue sys.1) sys.2).
Qed.

Lemma advance_owns t (sys : Host T * Hook T) :
  owns_queue sys -> owns_queue (advance fire t sys).
Proof.
  unfold owns_queue. intros Hown.
  pose proof (advance_hook t sys) as [_ Hh]. rewrite Hh. clear Hh.
  unfold advance.
  pose proof (runDue_suffix fire t (queue sys.1) sys.2) as [pre Hsuf].
  destruct (runDue fire t (queue sys.1) sys.2) as [q s]; simpl in *.
  rewrite Hsuf in Hown. now apply Forall_app in Hown as [_ Hown].
Qed.

Lemma mount_scheduled t (v : T) : scheduled delay (t, v) (mount delay t v).
Proof. now repeat split. Qed.

Lemma scheduled_owns (u : nat * T) (sys : Host T * Hook T) :
  scheduled delay u sys -> owns_queue sys.
Proof.
  intros (_ & _ & Hq). unfold owns_queue. rewrite Hq.
  now apply Forall_singleton.
Qed.

(** A render whose input changed leaves exactly the new timer pending. *)
Lemma render_change (sys : Host T * Hook T) (u : nat * T) :
  owns_queue sys -> u.2 <> value sys.2 ->
  let sys' := render delay sys u in
  scheduled delay (now sys.1 `max` u.1, u.2) sys'
  /\ commits sys'.2 = commits (advance fire u.1 sys).2.
Proof.
  intros Hown Hchange.
  pose proof (advance_owns u.1 sys Hown) as Hown'.
  pose proof (advance_hook u.1 sys) as [Hval _].
  pose proof (advance_now u.1 sys) as Hnow.
  unfold render.
  destruct (advance fire u.1 sys) as [host hook]; simpl in *.
  rewrite Hval. case_decide; [congruence|].
  pose proof (clearTimeout_all (handler hook) host Hown') as Hclear.
  unfold clearTimeout in Hclear; simpl in Hclear.
  unfold setTimeout; simpl. rewrite Hclear. simpl.
  unfold scheduled; simpl. now rewrite Hnow.
Qed.

Lemma render_same (sys : Host T * Hook T) (u : nat * T) :
  u.2 = value sys.2 -> render delay sys u = advance fire u.1 sys.
Proof.
  intros Hsame. pose proof (advance_hook u.1 sys) as [Hval _].
  unfold render. destruct (advance fire u.1 sys) as [host hook]; simpl in *.
  rewrite Hval. case_decide; [reflexivity|congruence].
Qed.

Lemma render_owns (sys : Host T * Hook T) (u : nat * T) :
  owns_queue sys -> owns_queue (render delay sys u).
Proof.
  intros Hown. destruct (decide (u.2 = value sys.2)) as [Hsame|Hchange].
  - rewrite render_same by exact Hsame. now apply advance_owns.
  - eapply scheduled_owns, render_change; eassumption.
Qed.

Lemma renders_own (sys : Host T * Hook T) (updates : list (nat * T)) :
  owns_queue sys -> owns_queue (foldl (render delay) sys updates).
Proof.
  revert sys. induction updates as [|u updates IH]; intros sys Hown; [done|].
  simpl. now apply IH, render_owns.
Qed.

Lemma render_value (sys : Host T * Hook T) (u : nat * T) : value (render delay sys u).2 = u.2.
Proof.
  destruct (decide (u.2 = value sys.2)) as [Hsame|Hchange].
  - rewrite render_same by exact Hsame.
    pose proof (advance_hook u.1 sys) as [Hval _]. congruence.
  - unfold render. pose proof (advance_hook u.1 sys) as [Hval _].
    destruct (advance fire u.1 sys) as [host hook]; simpl in *.
    rewrite Hval. case_decide; [congruence|]. reflexivity.
Qed.

Lemma renders_value updates : forall (sys : Host T * Hook T) (u0 : nat * T),
  value sys.2 = u0.2 ->
  value (foldl (render delay) sys updates).2 = (List.last updates u0).2.
Proof.
  induction updates as [|u updates IH]; intros sys u0 Hval; [exact Hval|].
  change (foldl (render delay) sys (u :: updates))
    with (foldl (render delay) (render delay sys u) updates).
  rewrite (IH _ u) by apply render_value.
  destruct updates as [|u' updates]; [reflexivity|].
  change (List.last (u :: u' :: updates) u0) with (List.last (u' :: updates) u0).
  now rewrite (last_nonempty_default _ _ u u0).
Qed.

Lemma render_now (sys : Host T * Hook T) (u : nat * T) bound :
  now sys.1 <= bound -> u.1 <= bound -> now (render delay sys u).1 <= bound.
Proof.
  intros Hnow Hu. pose proof (advance_now u.1 sys) as Hadv.
  unfold render. destruct (advance fire u.1 sys) as [host hook]; simpl in *.
  case_decide; simpl; lia.
Qed.

Lemma renders_now updates bound : forall (sys : Host T * Hook T),
  now sys.1 <= bound -> Forall (fun u => u.1 <= bound) updates ->
  now (foldl (render delay) sys updates).1 <= bound.
Proof.
  induction updates as [|u updates IH]; intros sys Hnow Hall; [exact Hnow|].
  apply Forall_cons in Hall as [Hu Hall]. simpl.
  apply IH; [|exact Hall]. now apply render_now.
Qed.

(** Within a burst no timer fires: each update finds the timer of the
    previous one still pending and replaces it. *)
Lemma burst_scheduled rest : forall (u : nat * T) (sys : Host T * Hook T),
  scheduled delay u sys -> burst delay u rest ->
  let sys' := foldl (render delay) sys rest in
  scheduled delay (List.last rest u) sys' /\ commits sys'.2 = commits sys.2.
Proof.
  induction rest as [|u' rest IH]; intros u sys Hsched Hburst; [done|].
  destruct Hburst as ((Hle & Hlt) & Hchange & Hburst).
  change (foldl (render delay) sys (u' :: rest))
    with (foldl (render delay) (render delay sys u') rest).
  pose proof Hsched as (Hnow & Hval & Hq).
  destruct (render_change sys u') as [Hsched' Hcommits].
  { eapply scheduled_owns; eassumption. }
  { congruence. }
  assert (Hidle : commits (advance fire u'.1 sys).2 = commits sys.2).
  { unfold advance. rewrite Hq, runDue_single_pending by (simpl; lia).
    reflexivity. }
  replace (now sys.1 `max` u'.1, u'.2) with u' in Hsched'
    by (destruct u'; simpl in *; f_equal; lia).
  destruct (IH u' _ Hsched' Hburst) as [Hfinal Hsame].
  split.
  - destruct rest as [|u'' rest]; [exact Hfinal|].
    change (List.last (u' :: u'' :: rest) u) with (List.last (u'' :: rest) u).
    now rewrite (last_nonempty_default _ _ u u').
  - simpl in Hsame. rewrite Hsame. congruence.
Qed.

Lemma scheduled_fires (u : nat * T) (sys : Host T * Hook T) tEnd :
  scheduled delay u sys -> u.1 + delay <= tEnd ->
  commits (advance fire tEnd sys).2 = commits sys.2 ++ [(u.1 + delay, u.2)]
  /\ queue (advance fire tEnd sys).1 = [].
Proof.
  intros (_ & _ & Hq) Hdue. unfold advance.
  rewrite Hq, runDue_single_due by (simpl; lia). now split.
Qed.

Lemma scheduled_waits (u : nat * T) (sys : Host T * Hook T) tEnd :
  scheduled delay u sys -> tEnd < u.1 + delay ->
  commits (advance fire tEnd sys).2 = commits sys.2.
Proof.
  intros (_ & _ & Hq) Hdue. unfold advance.
  now rewrite Hq, runDue_single_pending by (simpl; lia).
Qed.

(** The updates of a trace split into what came before a burst and the
    burst itself; [u1] is the first update of the burst. *)
Lemma burst_after_prefix t0 (v0 : T) pre u1 rest :
  t0 <= u1.1 -> Forall (fun u => u.1 <= u1.1) pre ->
  u1.2 <> (List.last pre (t0, v0)).2 ->
  burst delay u1 rest ->
  let sys := foldl (render delay) (mount delay t0 v0) (pre ++ u1 :: rest) in
  scheduled delay (List.last rest u1) sys
  /\ commits sys.2 = commits (run delay t0 v0 pre u1.1).2.
Proof.
  intros Ht0 Hpre Hchange Hburst.
  rewrite foldl_app.
  change (foldl (render delay) ?s (u1 :: rest))
    with (foldl (render delay) (render delay s u1) rest).
  set (before := foldl (render delay) (mount delay t0 v0) pre).
  assert (Hown : owns_queue before).
  { apply renders_own. eapply scheduled_owns, mount_scheduled. }
  assert (Hval : value before.2 = (List.last pre (t0, v0)).2).
  { now apply renders_value. }
  assert (Hnow : now before.1 <= u1.1).
  { apply renders_now; [simpl; lia|exact Hpre]. }
  destruct (render_change before u1 Hown) as [Hsched Hcommits];
    [congruence|].
  replace (now before.1 `max` u1.1, u1.2) with u1 in Hsched
    by (destruct u1; simpl in *; f_equal; lia).
  destruct (burst_scheduled rest u1 _ Hsched Hburst) as [Hfinal Hsame].
  split; [exact Hfinal|]. simpl in Hsame. rewrite Hsame. exact Hcommits.
Qed.
End DebounceFacts.

(** C3: a burst of input updates, each less than [delay] ms after the one
    before it, produces exactly one commit of the debounced value: it
    carries the value of the last update, it happens [delay] ms after that
    update, and the timers of the superseded updates are gone, since the
    only timer pending after the burst is the one of the last update. *)
Theorem useDebounce_burst_commits_once {T : Type} `{EqDecision T}
    (delay t0 : nat) (v0 : T) (pre : list (nat * T)) (u1 : nat * T)
    (rest : list (nat * T)) (tEnd : nat) :
  (t0 <= u1.1)%nat ->
  Forall (fun u => (u.1 <= u1.1)%nat) pre ->
  u1.2 <> (List.last pre (t0, v0)).2 ->
  Timers.burst delay u1 rest ->
  let uN := List.last rest u1 in
  (uN.1 + delay <= tEnd)%nat ->
  UseDebounce.commits (UseDebounce.run delay t0 v0 (pre ++ u1 :: rest) tEnd).2
  = UseDebounce.commits (UseDebounce.run delay t0 v0 pre u1.1).2
    ++ [((uN.1 + delay)%nat, uN.2)]
  /\ Timers.pending
       (foldl (UseDebounce.render delay) (UseDebounce.mount delay t0 v0)
          (pre ++ u1 :: rest)).1
     = [((uN.1 + delay)%nat, uN.2)]
  /\ Timers.pending (UseDebounce.run delay t0 v0 (pre ++ u1 :: rest) tEnd).1 = []
  /\ UseDebounce.debouncedValue
       (UseDebounce.run delay t0 v0 (pre ++ u1 :: rest) tEnd).2 = uN.2.
Proof.
  intros Ht0 Hpre Hchange Hburst uN Hend.
  destruct (burst_after_prefix delay t0 v0 pre u1 rest Ht0 Hpre Hchange Hburst)
    as [Hsched Hcommits].
  fold uN in Hsched.
  destruct (scheduled_fires delay uN _ tEnd Hsched Hend) as [Hfire Hempty].
  pose proof Hsched as (_ & _ & Hq).
  unfold UseDebounce.run at 1 3 4.
  split; [now rewrite Hfire, Hcommits|].
  split; [unfold Timers.pending; now rewrite Hq|].
  split; [unfold Timers.pending; now rewrite Hempty|].
  unfold Timers.advance. rewrite Hq, runDue_single_due by (simpl; lia).
  reflexivity.
Qed.

Lemma useDebounce_burst_commits_once_witness :
  UseDebounce.commits
    (UseDebounce.run 100 0 "r"%string
       ([(500%nat, "re"%string)]
          ++ (1000%nat, "rea"%string)
             :: [(1060%nat, "reac"%string); (1150%nat, "react"%string)])
       2000).2
  = UseDebounce.commits (UseDebounce.run 100 0 "r"%string [(500%nat, "re"%string)] 1000).2
    ++ [(1250%nat, "react"%string)].
Proof.
  refine (proj1 (useDebounce_burst_commits_once 100 0 "r"%string
    [(500%nat, "re"%string)] (1000%nat, "rea"%string)
    [(1060%nat, "reac"%string); (1150%nat, "react"%string)] 2000 _ _ _ _ _)).
  - simpl; lia.
  - repeat constructor; simpl; lia.
  - simpl. discriminate.
  - simpl. repeat split; try lia; discriminate.
  - simpl. lia.
Defined.

(** A burst that starts with the mount itself: one commit as well. *)
Lemma useDebounce_mount_burst {T : Type} `{EqDecision T}
    (delay t0 : nat) (v0 : T) (rest : list (nat * T)) (tEnd : nat) :
  Timers.burst delay (t0, v0) rest ->
  let uN := List.last rest (t0, v0) in
  (uN.1 + delay <= tEnd)%nat ->
  UseDebounce.commits (UseDebounce.run delay t0 v0 rest tEnd).2
  = [((uN.1 + delay)%nat, uN.2)].
Proof.
  intros Hburst uN Hend.
  destruct (burst_scheduled delay rest (t0, v0) _ (mount_scheduled delay t0 v0) Hburst)
    as [Hsched Hcommits].
  destruct (scheduled_fires delay uN _ tEnd Hsched Hend) as [Hfire _].
  unfold UseDebounce.run. rewrite Hfire. simpl in Hcommits. now rewrite Hcommits.
Qed.

Section ThrottleFacts.
Import Timers.
Local Open Scope nat_scope.
Context {T : Type} `{EqDecision T} (limit : nat).

Lemma runDue_toDebounce t (q : list (Timer T)) : forall host hook,
  UseThrottle.toDebounce
    (host, (runDue UseThrottle.setThrottledValue t q hook).2)
  = (host, (runDue UseDebounce.setDebouncedValue t q
             (UseThrottle.toDebounce (host, hook)).2).2)
  /\ (runDue UseThrottle.setThrottledValue t q hook).1
     = (runDue UseDebounce.setDebouncedValue t q
          (UseThrottle.toDebounce (host, hook)).2).1.
Proof.
  induction q as [|tm q IH]; intros host hook; simpl; [done|].
  case_decide; [|done]. apply (IH host).
Qed.

Lemma advance_toDebounce t (sys : Host T * UseThrottle.Hook T) :
  UseThrottle.toDebounce (advance UseThrottle.setThrottledValue t sys)
  = advance UseDebounce.setDebouncedValue t (UseThrottle.toDebounce sys).
Proof.
  destruct sys as [host hook]. unfold advance.
  destruct (runDue_toDebounce t (queue host) host hook) as [Hhook Hq].
  simpl in *.
  destruct (runDue UseThrottle.setThrottledValue t (queue host) hook) as [q s].
  destruct (runDue UseDebounce.setDebouncedValue t (queue host) _) as [q' s'].
  simpl in *. subst q'. unfold UseThrottle.toDebounce in *; simpl in *.
  congruence.
Qed.

Lemma mount_toDebounce t (v : T) :
  UseThrottle.toDebounce (UseThrottle.mount limit t v)
  = UseDebounce.mount limit t v.
Proof. reflexivity. Qed.

Lemma render_toDebounce (sys : Host T * UseThrottle.Hook T) (u : nat * T) :
  UseThrottle.toDebounce (UseThrottle.render limit sys u)
  = UseDebounce.render limit (UseThrottle.toDebounce sys) u.
Proof.
  unfold UseThrottle.render, UseDebounce.render.
  rewrite <- advance_toDebounce.
  destruct (advance UseThrottle.setThrottledValue u.1 sys) as [host hook].
  unfold UseThrottle.toDebounce at 2; simpl.
  case_decide; reflexivity.
Qed.

Lemma renders_toDebounce updates : forall (sys : Host T * UseThrottle.Hook T),
  UseThrottle.toDebounce (foldl (UseThrottle.render limit) sys updates)
  = foldl (UseDebounce.render limit) (UseThrottle.toDebounce sys) updates.
Proof.
  induction updates as [|u updates IH]; intros sys; [reflexivity|].
  simpl. now rewrite IH, render_toDebounce.
Qed.

Lemma run_toDebounce t0 (v0 : T) updates tEnd :
  UseThrottle.toDebounce (UseThrottle.run limit t0 v0 updates tEnd)
  = UseDebounce.run limit t0 v0 updates tEnd.
Proof.
  unfold UseThrottle.run, UseDebounce.run.
  now rewrite advance_toDebounce, renders_toDebounce, mount_toDebounce.
Qed.
End ThrottleFacts.

(** C4: [useThrottle] with limit [d] behaves exactly as [useDebounce] with
    delay [d]: on every trace of updates both make the same commits at the
    same times, hold the same value and leave the same timers pending.  It
    does not sample at a fixed cadence: while a burst lasts, however long,
    nothing is committed. *)
Theorem useThrottle_is_useDebounce {T : Type} `{EqDecision T}
    (d t0 : nat) (v0 : T) (updates : list (nat * T)) (tEnd : nat) :
  let thr := UseThrottle.run d t0 v0 updates tEnd in
  let deb := UseDebounce.run d t0 v0 updates tEnd in
  (UseThrottle.commits thr.2 = UseDebounce.commits deb.2
   /\ UseThrottle.throttledValue thr.2 = UseDebounce.debouncedValue deb.2
   /\ thr.1 = deb.1)
  /\ forall pre u1 rest,
       updates = pre ++ u1 :: rest ->
       (t0 <= u1.1)%nat ->
       Forall (fun u => (u.1 <= u1.1)%nat) pre ->
       u1.2 <> (List.last pre (t0, v0)).2 ->
       Timers.burst d u1 rest ->
       (tEnd < (List.last rest u1).1 + d)%nat ->
       UseThrottle.commits thr.2
       = UseThrottle.commits (UseThrottle.run d t0 v0 pre u1.1).2.
Proof.
  intros thr deb.
  pose proof (run_toDebounce d t0 v0 updates tEnd) as Hrun.
  fold thr deb in Hrun.
  assert (Hsame : UseThrottle.commits thr.2 = UseDebounce.commits deb.2
                  /\ UseThrottle.throttledValue thr.2
                     = UseDebounce.debouncedValue deb.2
                  /\ thr.1 = deb.1).
  { rewrite <- Hrun. now repeat split. }
  split; [exact Hsame|].
  intros pre u1 rest Hupd Ht0 Hpre Hchange Hburst Hend.
  destruct Hsame as [-> _].
  pose proof (run_toDebounce d t0 v0 pre u1.1) as Hpre_run.
  replace (UseThrottle.commits (UseThrottle.run d t0 v0 pre u1.1).2)
    with (UseDebounce.commits (UseDebounce.run d t0 v0 pre u1.1).2)
    by (now rewrite <- Hpre_run).
  destruct (burst_after_prefix d t0 v0 pre u1 rest Ht0 Hpre Hchange Hburst)
    as [Hsched Hcommits].
  unfold deb, UseDebounce.run at 1. rewrite Hupd.
  now rewrite (scheduled_waits d _ _ tEnd Hsched Hend).
Qed.

Lemma useThrottle_is_useDebounce_witness :
  let updates := [(60, "b"); (120, "c"); (180, "d"); (240, "e"); (300, "f")]%nat%string in
  UseThrottle.commits (UseThrottle.run 100 0 "a"%string updates 399).2 = [].
Proof.
  refine (proj2 (useThrottle_is_useDebounce 100 0 "a"%string
    [(60, "b"); (120, "c"); (180, "d"); (240, "e"); (300, "f")]%nat%string 399)
    [] (60%nat, "b"%string)
    [(120, "c"); (180, "d"); (240, "e"); (300, "f")]%nat%string _ _ _ _ _ _).
  - reflexivity.
  - simpl; lia.
  - constructor.
  - simpl. discriminate.
  - simpl. repeat split; try lia; discriminate.
  - simpl. lia.
Defined.

(** ** Late results: useFetch and useAxios *)

Section FetchFacts.
Import UseFetch.
Context {T : Type}.




End FetchFacts.

Section AxiosFacts.
Import UseAxios.
Context {T : Type}.

End AxiosFacts.




(** ** Bounded retry *)

Section RetryFacts.
Import UseFetchRetry.
Context {T : Type} (retries : Z) (net : nat -> Settled (Response T)).

Lemma loop_fails_then_succeeds (j : nat) : forall (fuel : nat) (r : Run T) d,
  (j < fuel)%nat ->
  attempts r + Z.of_nat j < retries ->
  (forall i, (i < j)%nat -> exists m, attempt (net (calls r + i)) = inl m) ->
  attempt (net (calls r + j)) = inr d ->
  loop retries net fuel r
  = Some {| commits := commits r ++ [succeeded d];
            calls := S (calls r + j);
            attempts := attempts r + Z.of_nat j |}.
Proof.
  induction j as [|j IH]; intros fuel r d Hfuel Hlt Hfail Hok;
    (destruct fuel as [|fuel]; [lia|]); simpl.
  - case_decide; [|lia]. rewrite Nat.add_0_r in Hok. rewrite Hok.
    do 2 f_equal; lia.
  - case_decide; [|lia].
    destruct (Hfail 0%nat ltac:(lia)) as [m Hm].
    rewrite Nat.add_0_r in Hm. rewrite Hm.
    case_decide; [lia|].
    rewrite (IH fuel _ d); simpl.
    + do 2 f_equal; lia.
    + lia.
    + lia.
    + intros i Hi. destruct (Hfail (S i) ltac:(lia)) as [m' Hm'].
      exists m'. rewrite <- Hm'. do 2 f_equal. lia.
    + rewrite <- Hok. do 2 f_equal. lia.
Qed.

Lemma loop_exhausts (j : nat) : forall (fuel : nat) (r : Run T) m,
  (0 < j <= fuel)%nat ->
  attempts r + Z.of_nat j = retries ->
  (forall i, (i < j)%nat -> exists m', attempt (net (calls r + i)) = inl m') ->
  attempt (net (calls r + j - 1)) = inl m ->
  loop retries net fuel r
  = Some {| commits := commits r ++ [failed m];
            calls := calls r + j;
            attempts := retries |}.
Proof.
  induction j as [|j IH]; intros fuel r m Hfuel Hsum Hfail Hlast; [lia|].
  destruct fuel as [|fuel]; [lia|]. simpl.
  case_decide; [|lia].
  destruct (Hfail 0%nat ltac:(lia)) as [m0 Hm0].
  rewrite Nat.add_0_r in Hm0. rewrite Hm0.
  destruct j as [|j].
  - replace (calls r + 1 - 1)%nat with (calls r) in Hlast by lia.
    assert (m0 = m) as -> by congruence.
    case_decide; [|lia].
    destruct fuel; simpl; (case_decide; [lia|]); do 2 f_equal; lia.
  - case_decide; [lia|].
    rewrite (IH fuel _ m); simpl.
    + do 2 f_equal; lia.
    + lia.
    + lia.
    + intros i Hi. destruct (Hfail (S i) ltac:(lia)) as [m' Hm'].
      exists m'. rewrite <- Hm'. do 2 f_equal. lia.
    + rewrite <- Hlast. do 2 f_equal. lia.
Qed.

(** The loop always comes to an end within [retries] iterations. *)
Lemma loop_total : forall (fuel : nat) (r : Run T),
  (Z.to_nat (retries - attempts r) <= fuel)%nat ->
  is_Some (loop retries net fuel r).
Proof.
  induction fuel as [|fuel IH]; intros r Hfuel; simpl.
  - case_decide; [lia|done].
  - case_decide; [|done].
    destruct (attempt (net (calls r))); [|done].
    apply IH; simpl; lia.
Qed.

Lemma fetchData_total : is_Some (fetchData retries net).
Proof. apply loop_total. simpl. lia. Qed.

(** With [retries <= 0] nothing is fetched and nothing is committed. *)
Lemma fetchData_no_retries :
  retries <= 0 -> fetchData retries net = Some started.
Proof.
  intros Hle. unfold fetchData.
  destruct (Z.to_nat retries); simpl; (case_decide; [lia|reflexivity]).
Qed.
End RetryFacts.

Section RetryOutcomes.
Import UseFetchRetry.
Context {T : Type}.

Lemma attempt_serves (outcome : Settled (Response T)) (d : option T) :
  serves outcome d -> attempt outcome = inr d.
Proof. intros (response & -> & Hok & Hjson). simpl. now rewrite Hok, Hjson. Qed.

Lemma attempt_fails (outcome : Settled (Response T)) (message : string) :
  fails outcome message -> attempt outcome = inl message.
Proof.
  intros [-> | [(response & -> & Hok & ->) | (response & -> & Hok & Hjson)]];
    simpl; [reflexivity|now rewrite Hok|now rewrite Hok, Hjson].
Qed.
End RetryOutcomes.

(** C2: with bound [retries], a fetch that fails its first [k < retries]
    attempts and then serves a body commits that body (the body in [data],
    [error] null, loading false) after exactly [k + 1] attempts; a fetch
    that fails every time is attempted exactly [retries] times and then
    commits the message of the last failure, with [data] null and loading
    false, and the call is over; and an effect run for new dependencies
    counts its attempts from zero, whatever the runs before it used up.
    Nothing else is committed by either call. *)
Theorem useFetchRetry_bounded_retry {T : Type} (retries : Z)
    (network : string -> nat -> nat -> Settled (UseFetchRetry.Response T))
    (h : UseFetchRetry.Hook T) (url : string) (options : nat) (k : nat) :
  let net := network url options in
  (Z.of_nat k < retries ->
   (forall i, (i < k)%nat -> exists m, UseFetchRetry.fails (net i) m) ->
   forall d, UseFetchRetry.serves (net k) d ->
   let success :=
     {| UseFetchRetry.data := d; UseFetchRetry.error := None;
        UseFetchRetry.loading := false |} in
   let r := {| UseFetchRetry.commits := [success];
               UseFetchRetry.calls := S k;
               UseFetchRetry.attempts := Z.of_nat k |} in
   UseFetchRetry.fetchData retries net = Some r
   /\ (UseFetchRetry.deps h <> Some (url, options, retries) ->
       UseFetchRetry.render network h (url, options, retries)
       = Some {| UseFetchRetry.state := success;
                 UseFetchRetry.deps := Some (url, options, retries);
                 UseFetchRetry.runs := UseFetchRetry.runs h ++ [(url, r)] |}))
  /\ (0 < retries ->
      (forall i, Z.of_nat i < retries ->
         exists m, UseFetchRetry.fails (net i) m) ->
      forall m, UseFetchRetry.fails (net (Z.to_nat retries - 1)%nat) m ->
      let failure :=
        {| UseFetchRetry.data := None; UseFetchRetry.error := Some m;
           UseFetchRetry.loading := false |} in
      let r := {| UseFetchRetry.commits := [failure];
                  UseFetchRetry.calls := Z.to_nat retries;
                  UseFetchRetry.attempts := retries |} in
      UseFetchRetry.fetchData retries net = Some r
      /\ (UseFetchRetry.deps h <> Some (url, options, retries) ->
          UseFetchRetry.render network h (url, options, retries)
          = Some {| UseFetchRetry.state := failure;
                    UseFetchRetry.deps := Some (url, options, retries);
                    UseFetchRetry.runs := UseFetchRetry.runs h ++ [(url, r)] |})).
Proof.
  intros net. split.
  - intros Hk Hfail d Hok success r.
    assert (Hrun : UseFetchRetry.fetchData retries net = Some r).
    { unfold UseFetchRetry.fetchData.
      rewrite (loop_fails_then_succeeds retries net k _ _ d); simpl.
      - reflexivity.
      - lia.
      - lia.
      - intros i Hi. destruct (Hfail i Hi) as [m Hm]. exists m.
        now apply attempt_fails.
      - now apply attempt_serves. }
    split; [exact Hrun|]. intros Hdeps. unfold UseFetchRetry.render.
    cbv beta iota zeta. case_decide; [congruence|]. fold net.
    now rewrite Hrun.
  - intros Hpos Hfail m Hlast failure r.
    assert (Hrun : UseFetchRetry.fetchData retries net = Some r).
    { unfold UseFetchRetry.fetchData.
      rewrite (loop_exhausts retries net (Z.to_nat retries) _ _ m); simpl.
      - reflexivity.
      - lia.
      - lia.
      - intros i Hi. destruct (Hfail i ltac:(lia)) as [m' Hm']. exists m'.
        now apply attempt_fails.
      - now apply attempt_fails. }
    split; [exact Hrun|]. intros Hdeps. unfold UseFetchRetry.render.
    cbv beta iota zeta. case_decide; [congruence|]. fold net.
    now rewrite Hrun.
Qed.

Lemma useFetchRetry_bounded_retry_witness :
  let unreachable :=
    {| UseFetchRetry.data := @None Z;
       UseFetchRetry.error := Some "Failed to fetch"%string;
       UseFetchRetry.loading := false |} in
  let exhausted :=
    {| UseFetchRetry.commits := [unreachable];
       UseFetchRetry.calls := 3; UseFetchRetry.attempts := 3 |} in
  let h :=
    {| UseFetchRetry.state := unreachable;
       UseFetchRetry.deps := Some ("/down"%string, 0%nat, 3);
       UseFetchRetry.runs := [("/down"%string, exhausted)] |} in
  let served :=
    {| UseFetchRetry.data := Some 7; UseFetchRetry.error := None;
       UseFetchRetry.loading := false |} in
  let refused :=
    {| UseFetchRetry.data := @None Z;
       UseFetchRetry.error := Some "HTTP error! status: 503"%string;
       UseFetchRetry.loading := false |} in
  UseFetchRetry.render flaky UseFetchRetry.beforeMount ("/down"%string, 0%nat, 3)
  = Some h
  /\ UseFetchRetry.render flaky h ("/ok"%string, 0%nat, 3)
     = Some {| UseFetchRetry.state := served;
               UseFetchRetry.deps := Some ("/ok"%string, 0%nat, 3);
               UseFetchRetry.runs :=
                 [("/down"%string, exhausted);
                  ("/ok"%string,
                   {| UseFetchRetry.commits := [served];
                      UseFetchRetry.calls := 3;
                      UseFetchRetry.attempts := 2 |})] |}
  /\ UseFetchRetry.render flaky h ("/busy"%string, 0%nat, 2)
     = Some {| UseFetchRetry.state := refused;
               UseFetchRetry.deps := Some ("/busy"%string, 0%nat, 2);
               UseFetchRetry.runs :=
                 [("/down"%string, exhausted);
                  ("/busy"%string,
                   {| UseFetchRetry.commits := [refused];
                      UseFetchRetry.calls := 2;
                      UseFetchRetry.attempts := 2 |})] |}.
Proof.
  cbv zeta.
  pose (busy := {| UseFetchRetry.ok := false; UseFetchRetry.status := 503;
                   UseFetchRetry.json :=
                     Rejected (A:=option Z) "Unexpected end of JSON input" |}).
  pose (h := {| UseFetchRetry.state :=
                  {| UseFetchRetry.data := @None Z;
                     UseFetchRetry.error := Some "Failed to fetch"%string;
                     UseFetchRetry.loading := false |};
                UseFetchRetry.deps := Some ("/down"%string, 0%nat, 3);
                UseFetchRetry.runs :=
                  [("/down"%string,
                    {| UseFetchRetry.commits :=
                         [{| UseFetchRetry.data := @None Z;
                             UseFetchRetry.error := Some "Failed to fetch"%string;
                             UseFetchRetry.loading := false |}];
                       UseFetchRetry.calls := 3;
                       UseFetchRetry.attempts := 3 |})] |}).
  split; [|split].
  - apply (proj2 (useFetchRetry_bounded_retry 3 flaky
             UseFetchRetry.beforeMount "/down" 0 0)).
    + lia.
    + intros i _. exists "Failed to fetch"%string. now left.
    + now left.
    + discriminate.
  - apply (proj1 (useFetchRetry_bounded_retry 3 flaky h "/ok" 0 2)).
    + lia.
    + intros i Hi. exists "HTTP error! status: 503"%string.
      right. left. exists busy.
      destruct i as [|[|i]]; [now split|now split|lia].
    + eexists. split; [reflexivity|]. now split.
    + discriminate.
  - apply (proj2 (useFetchRetry_bounded_retry 2 flaky h "/busy" 0 0)).
    + lia.
    + intros i _. exists "HTTP error! status: 503"%string.
      right. left. exists busy. now split.
    + right. left. exists busy. now split.
    + discriminate.
Defined.

(** ** Further evaluations of the code *)

(** A request that was in flight when [cancelRequest] ran still writes its
    result: its closure holds the [cancelled] of the render that built it. *)
Example useAxios_inflight_after_cancel :
  UseAxios.cells (UseAxios.run
    [UseAxios.MakeRequest; UseAxios.CancelRequest;
     UseAxios.Settle 0 (UseAxios.Responded 7)])
  = {| UseAxios.data := Some 7; UseAxios.loading := false;
       UseAxios.error := None; UseAxios.cancelled := true |}.
Proof. reflexivity. Qed.

(** A browser without [navigator.getBattery]: the effect of [useBattery]
    raises a [TypeError]. *)
Example useBattery_without_getBattery :
  UseBattery.useBattery
    {| Env.window := Some {| Env.innerWidth := 1280; Env.innerHeight := 720;
                             Env.hasDocument := true |};
       Env.navigator := Some {| Env.hasGetBattery := false |};
       Env.localStorage := Some ∅ |}
  = Throw (TypeError "_navigator.getBattery is not a function").
Proof. reflexivity. Qed.

(** With [retries = 0] the loop body never runs: the state stays loading. *)
Example useFetchRetry_zero_retries :
  UseFetchRetry.render flaky UseFetchRetry.beforeMount ("/ok"%string, 0%nat, 0)
  = Some {| UseFetchRetry.state := UseFetchRetry.initialState;
            UseFetchRetry.deps := Some ("/ok"%string, 0%nat, 0);
            UseFetchRetry.runs := [("/ok"%string, UseFetchRetry.started)] |}.
Proof. reflexivity. Qed.

(** The effect also runs again when only the identity of [options]
    changes, as with an object literal written in the render: the same url
    is fetched anew, its attempts counted from zero. *)
Example useFetchRetry_new_options :
  let once := UseFetchRetry.render flaky UseFetchRetry.beforeMount
                ("/ok"%string, 0%nat, 3) in
  (once ≫= fun h => UseFetchRetry.render flaky h ("/ok"%string, 0%nat, 3)) = once
  /\ ((once ≫= fun h => UseFetchRetry.render flaky h ("/ok"%string, 1%nat, 3))
      ≫= fun h => Some (length (UseFetchRetry.runs h))) = Some 2%nat.
Proof. split; reflexivity. Qed.

(** * Further properties of the catalogue *)

(** ** useToggle, useArray, usePrevious, useKeyPress *)

(** [useToggle]: after [n] toggles the value is the initial one when [n] is
    even and its negation when [n] is odd. *)
Theorem useToggle_parity (initialValue : bool) (n : nat) :
  UseToggle.useToggle initialValue n
  = if Nat.even n then initialValue else negb initialValue.
Proof.
  unfold UseToggle.useToggle.
  induction n as [|n IH]; [reflexivity|].
  rewrite Nat.even_succ, <- Nat.negb_even. simpl. rewrite IH.
  unfold UseToggle.toggle. destruct (Nat.even n), initialValue; reflexivity.
Qed.

Lemma removeFrom_spec {T : Type} (l : list T) : forall (i : nat) (index : Z),
  UseArray.removeFrom i index l
  = if decide (Z.of_nat i <= index < Z.of_nat (i + length l))
    then delete (Z.to_nat index - i)%nat l else l.
Proof.
  induction l as [|x l IH]; intros i index; simpl.
  - case_decide; [lia|reflexivity].
  - rewrite IH. destruct (decide (Z.of_nat i <> index)) as [Hne|Heq].
    + repeat case_decide; try lia; [|reflexivity].
      replace (Z.to_nat index - i)%nat with (S (Z.to_nat index - S i)) by lia.
      reflexivity.
    + apply dec_stable in Heq. subst index.
      repeat case_decide; try lia.
      replace (Z.to_nat (Z.of_nat i) - i)%nat with 0%nat by lia. reflexivity.
Qed.

(** [useArray].removeByIndex: an index inside the array removes exactly the
    element at that position and keeps the others in order; a negative index
    or one past the end leaves the array as it is. *)
Theorem useArray_removeByIndex {T : Type} (index : Z) (array : list T) :
  UseArray.removeByIndex index array
  = if decide (0 <= index < Z.of_nat (length array))
    then delete (Z.to_nat index) array else array.
Proof.
  unfold UseArray.removeByIndex. rewrite removeFrom_spec. simpl.
  repeat case_decide; try lia; [|reflexivity].
  now rewrite Nat.sub_0_r.
Qed.

(** [useArray]: a push appends at the end, so removing at the old length
    undoes it, whatever commands came before. *)
Theorem useArray_push_then_remove {T : Type} (initialArray : list T)
    (cmds : list (UseArray.Command T)) (item : T) :
  let array := UseArray.useArray initialArray cmds in
  UseArray.useArray initialArray (cmds ++ [UseArray.Push item]) = array ++ [item]
  /\ UseArray.useArray initialArray
       (cmds ++ [UseArray.Push item;
                 UseArray.RemoveByIndex (Z.of_nat (length array))])
     = array.
Proof.
  intros array. unfold UseArray.useArray in *. rewrite !foldl_app. simpl.
  fold array. split; [reflexivity|].
  rewrite useArray_removeByIndex. unfold UseArray.push.
  rewrite length_app. simpl. case_decide; [|lia].
  rewrite Nat2Z.id, delete_middle. now rewrite app_nil_r.
Qed.

Lemma usePrevious_returns {T : Type} (values : list T) : forall ref,
  UsePrevious.returns ref values
  = take (length values) (ref :: (Some <$> values)).
Proof.
  induction values as [|v values IH]; intros ref; [reflexivity|].
  simpl. now rewrite IH.
Qed.

(** [usePrevious]: the first render returns undefined and every later
    render returns the input of the render before it. *)
Theorem usePrevious_lags_one_render {T : Type} (values : list T) (i : nat) :
  UsePrevious.usePrevious values !! 0%nat
  = (fun _ => None) <$> (values !! 0%nat)
  /\ ((S i < length values)%nat ->
      UsePrevious.usePrevious values !! S i = Some (values !! i)).
Proof.
  unfold UsePrevious.usePrevious. rewrite usePrevious_returns. split.
  - destruct values; reflexivity.
  - intros Hi. rewrite lookup_take_lt by lia. simpl.
    rewrite list_lookup_fmap.
    destruct (lookup_lt_is_Some_2 values i ltac:(lia)) as [v ->]. reflexivity.
Qed.

Lemma usePrevious_lags_one_render_witness :
  UsePrevious.usePrevious ["a"; "b"; "c"]%string !! 2%nat = Some (Some "b"%string).
Proof.
  apply (proj2 (usePrevious_lags_one_render ["a"; "b"; "c"]%string 1)).
  simpl. lia.
Defined.

(** [useKeyPress]: the flag is decided by the latest event of the target
    key (down sets it, up clears it); events of other keys leave it as it
    is. *)
Theorem useKeyPress_tracks_target (targetKey : string)
    (es : list UseKeyPress.KeyEvent) (key : string) :
  UseKeyPress.useKeyPress targetKey (es ++ [UseKeyPress.KeyDown targetKey]) = true
  /\ UseKeyPress.useKeyPress targetKey (es ++ [UseKeyPress.KeyUp targetKey]) = false
  /\ (key <> targetKey ->
      UseKeyPress.useKeyPress targetKey (es ++ [UseKeyPress.KeyDown key])
      = UseKeyPress.useKeyPress targetKey es
      /\ UseKeyPress.useKeyPress targetKey (es ++ [UseKeyPress.KeyUp key])
         = UseKeyPress.useKeyPress targetKey es).
Proof.
  unfold UseKeyPress.useKeyPress. rewrite !foldl_app. simpl.
  unfold UseKeyPress.handleKeyDown, UseKeyPress.handleKeyUp.
  split; [case_decide; congruence|]. split; [case_decide; congruence|].
  intros Hne. split; case_decide; congruence.
Qed.

Lemma useKeyPress_tracks_target_witness :
  UseKeyPress.useKeyPress "Shift"
    ([UseKeyPress.KeyDown "Shift"] ++ [UseKeyPress.KeyUp "a"])
  = UseKeyPress.useKeyPress "Shift" [UseKeyPress.KeyDown "Shift"].
Proof.
  apply (proj2 (proj2 (proj2 (useKeyPress_tracks_target "Shift"
    [UseKeyPress.KeyDown "Shift"] "a")) ltac:(discriminate))).
Defined.

(** ** useForm *)



(** ** Storage adapters: reading back and missing stores *)

Section StorageWriteFacts.
Import Env Storage StorageWrite.
Context {T : Type}.
Context (JSON_parse : string -> Result T) (JSON_stringify : T -> string).

Lemma setValue_store (e : Env) store key (value : T) :
  localStorage e = Some store ->
  localStorage (setValue JSON_stringify e key value).2
  = Some (<[key := JSON_stringify value]> store).
Proof. intros Hs. unfold setValue, setItem. now rewrite Hs. Qed.
End StorageWriteFacts.

(** Storage round trip: a value written by [setValue] of [useLocalStorage]
    is what a fresh [useLocalStorage] or [usePersistedState] over the same
    key starts with, provided [JSON.parse] inverts [JSON.stringify] on it;
    adapters over other keys start as they did before the write. *)
Theorem storage_write_then_read {T : Type}
    (JSON_parse : string -> Result T) (JSON_stringify : T -> string)
    (e : Env.Env) (store : gmap string string) (key : string)
    (value initialValue : T) :
  Env.localStorage e = Some store ->
  JSON_parse (JSON_stringify value) = Ok value ->
  JSON_stringify value <> ""%string ->
  let e' := (StorageWrite.setValue JSON_stringify e key value).2 in
  Storage.useLocalStorage JSON_parse e' key initialValue = Ok value
  /\ Storage.usePersistedState JSON_parse e' key initialValue = Ok value
  /\ StorageWrite.persistEffect JSON_stringify e key value = Ok e'
  /\ forall key', key' <> key ->
       Storage.useLocalStorage JSON_parse e' key' initialValue
       = Storage.useLocalStorage JSON_parse e key' initialValue
       /\ Storage.usePersistedState JSON_parse e' key' initialValue
          = Storage.usePersistedState JSON_parse e key' initialValue.
Proof.
  intros Hstore Hparse Hne e'.
  pose proof (setValue_store JSON_stringify e store key value Hstore) as He'.
  fold e' in He'.
  assert (Hread : forall k, Storage.getItem e' k
                            = Ok (<[key := JSON_stringify value]> store !! k)).
  { intros k. unfold Storage.getItem. now rewrite He'. }
  assert (Hitem : Storage.parseOrDefault JSON_parse
                    (Some (JSON_stringify value)) initialValue = Ok value).
  { unfold Storage.parseOrDefault, Storage.truthy.
    case_decide; [congruence|exact Hparse]. }
  split; [|split; [|split]].
  - unfold Storage.useLocalStorage. rewrite Hread, lookup_insert_eq, Hitem.
    reflexivity.
  - unfold Storage.usePersistedState. now rewrite Hread, lookup_insert_eq.
  - unfold e', StorageWrite.persistEffect, StorageWrite.setValue,
      StorageWrite.setItem. now rewrite Hstore.
  - intros key' Hkey.
    unfold Storage.useLocalStorage, Storage.usePersistedState.
    rewrite !Hread, lookup_insert_ne by congruence.
    unfold Storage.getItem. now rewrite Hstore.
Qed.

Lemma storage_write_then_read_witness :
  let e := {| Env.window := None; Env.navigator := None;
              Env.localStorage := Some {[ "theme"%string := "false"%string ]} |} in
  let e' := (StorageWrite.setValue Storage.JSON_stringify_bool e "dark" true).2 in
  Storage.useLocalStorage Storage.JSON_parse_bool e' "dark" false = Ok true.
Proof.
  refine (proj1 (storage_write_then_read Storage.JSON_parse_bool
    Storage.JSON_stringify_bool
    {| Env.window := None; Env.navigator := None;
       Env.localStorage := Some {[ "theme"%string := "false"%string ]} |}
    {[ "theme"%string := "false"%string ]} "dark" true false _ _ _)).
  - reflexivity.
  - reflexivity.
  - discriminate.
Defined.

(** Missing data: when the key is absent, or holds the empty string, both
    [useLocalStorage] and [usePersistedState] start with the supplied
    default and [JSON.parse] is not consulted. *)
Theorem storage_missing_key {T : Type} (JSON_parse : string -> Result T)
    (e : Env.Env) (store : gmap string string) (key : string)
    (initialValue : T) :
  Env.localStorage e = Some store ->
  store !! key = None \/ store !! key = Some ""%string ->
  Storage.useLocalStorage JSON_parse e key initialValue = Ok initialValue
  /\ Storage.usePersistedState JSON_parse e key initialValue = Ok initialValue.
Proof.
  intros Hstore Hkey.
  unfold Storage.useLocalStorage, Storage.usePersistedState, Storage.getItem.
  rewrite Hstore. destruct Hkey as [-> | ->]; now split.
Qed.

Lemma storage_missing_key_witness :
  Storage.usePersistedState Storage.JSON_parse_bool
    {| Env.window := None; Env.navigator := None;
       Env.localStorage := Some ∅ |} "theme" true = Ok true.
Proof.
  refine (proj2 (storage_missing_key Storage.JSON_parse_bool
    {| Env.window := None; Env.navigator := None; Env.localStorage := Some ∅ |}
    ∅ "theme" true _ _)).
  - reflexivity.
  - left. reflexivity.
Defined.

(** No store at all: where [localStorage] is not defined, [useLocalStorage]
    starts with the default and its [setValue] still updates the state
    without raising; [usePersistedState] raises, at its first render and
    again in its write-back effect. *)
Theorem storage_without_localStorage {T : Type}
    (JSON_parse : string -> Result T) (JSON_stringify : T -> string)
    (e : Env.Env) (key : string) (value initialValue : T) :
  Env.localStorage e = None ->
  Storage.useLocalStorage JSON_parse e key initialValue = Ok initialValue
  /\ StorageWrite.setValue JSON_stringify e key value = (value, e)
  /\ throws (Storage.usePersistedState JSON_parse e key initialValue) = true
  /\ throws (StorageWrite.persistEffect JSON_stringify e key value) = true.
Proof.
  intros Hnone.
  unfold Storage.useLocalStorage, Storage.usePersistedState, Storage.getItem,
    StorageWrite.setValue, StorageWrite.persistEffect, StorageWrite.setItem.
  rewrite Hnone. now repeat split.
Qed.

Lemma storage_without_localStorage_witness :
  StorageWrite.setValue Storage.JSON_stringify_bool Env.server "theme" true
  = (true, Env.server).
Proof.
  exact (proj1 (proj2 (storage_without_localStorage Storage.JSON_parse_bool
    Storage.JSON_stringify_bool Env.server "theme" true false eq_refl))).
Defined.

(** [useSessionStorage]: where [isReady()] is false it starts with the
    default and [setValue] changes the state only, never the store; where
    it is true, a written value is read back by a fresh instance.  An
    updater function is applied to the stored value. *)
Theorem useSessionStorage_ready_or_not {T : Type}
    (JSON_parse : string -> Result T) (JSON_stringify : T -> string)
    (s : StorageWrite.SessionEnv) (key : string)
    (value : T + (T -> T)) (storedValue initialValue : T) :
  let valueToStore :=
    match value with inl v => v | inr update => update storedValue end in
  let written :=
    StorageWrite.sessionSetValue JSON_stringify s key value storedValue in
  written.1 = valueToStore
  /\ (Env.isReady (StorageWrite.env s) = false ->
      StorageWrite.useSessionStorage JSON_parse s key initialValue = initialValue
      /\ written.2 = s)
  /\ (Env.isReady (StorageWrite.env s) = true ->
      is_Some (StorageWrite.sessionStorage s) ->
      JSON_parse (JSON_stringify valueToStore) = Ok valueToStore ->
      JSON_stringify valueToStore <> ""%string ->
      StorageWrite.useSessionStorage JSON_parse written.2 key initialValue
      = valueToStore).
Proof.
  intros valueToStore written. split; [reflexivity|]. split.
  - intros Hready. unfold written, StorageWrite.useSessionStorage,
      StorageWrite.sessionSetValue. now rewrite Hready.
  - intros Hready [store Hstore] Hparse Hne.
    unfold written, StorageWrite.useSessionStorage,
      StorageWrite.sessionSetValue, StorageWrite.sessionSetItem,
      StorageWrite.sessionGetItem.
    fold valueToStore. rewrite Hready, Hstore. simpl. rewrite Hready. simpl.
    rewrite lookup_insert_eq.
    unfold Storage.parseOrDefault, Storage.truthy.
    case_decide; [congruence|]. now rewrite Hparse.
Qed.

Lemma useSessionStorage_ready_or_not_witness :
  let browser :=
    {| StorageWrite.env :=
         {| Env.window := Some {| Env.innerWidth := 800; Env.innerHeight := 600;
                                  Env.hasDocument := true |};
            Env.navigator := None; Env.localStorage := None |};
       StorageWrite.sessionStorage := Some ∅ |} in
  StorageWrite.useSessionStorage Storage.JSON_parse_bool
    (StorageWrite.sessionSetValue Storage.JSON_stringify_bool browser "seen"
       (inr negb) false).2 "seen" false
  = true.
Proof.
  refine (proj2 (proj2 (useSessionStorage_ready_or_not Storage.JSON_parse_bool
    Storage.JSON_stringify_bool
    {| StorageWrite.env :=
         {| Env.window := Some {| Env.innerWidth := 800; Env.innerHeight := 600;
                                  Env.hasDocument := true |};
            Env.navigator := None; Env.localStorage := None |};
       StorageWrite.sessionStorage := Some ∅ |}
    "seen" (inr negb) false false)) _ _ _ _).
  - reflexivity.
  - eexists; reflexivity.
  - reflexivity.
  - discriminate.
Defined.

(** ** Scroll locks *)

(** [useScrollLock]: setup followed by cleanup puts the inline overflow
    style back, and so do two nested locks released in reverse order; when
    the lock taken first is released first, the body is left with
    [overflow: hidden] after both are gone. *)
Theorem useScrollLock_restore (lock : bool) (overflow : string) :
  let one := ScrollLock.useScrollLock_effect lock overflow in
  ScrollLock.useScrollLock_cleanup one.2 one.1 = overflow
  /\ (let a := ScrollLock.useScrollLock_effect true overflow in
      let b := ScrollLock.useScrollLock_effect true a.1 in
      ScrollLock.useScrollLock_cleanup a.2
        (ScrollLock.useScrollLock_cleanup b.2 b.1) = overflow
      /\ ScrollLock.useScrollLock_cleanup b.2
           (ScrollLock.useScrollLock_cleanup a.2 b.1) = "hidden"%string).
Proof. destruct lock; now repeat split. Qed.

(** [useLockBodyScroll]: what the cleanup writes into the inline style is
    the computed overflow of the time of setup, not the inline style that
    was there; without a document, or with [lock] false, nothing is
    written. *)
Theorem useLockBodyScroll_restores_computed
    (computedOverflow : string -> string) (hasDocument lock : bool)
    (overflow : string) :
  let setup :=
    ScrollLock.useLockBodyScroll_effect computedOverflow hasDocument lock
      overflow in
  ScrollLock.useLockBodyScroll_cleanup setup.2 setup.1
  = if hasDocument && lock then computedOverflow overflow else overflow.
Proof. destruct hasDocument, lock; reflexivity. Qed.

(** ** Observers and listeners that are released *)

(** [useIntersectionObserver]: the cleanup unobserves the node that the
    setup observed, so the observations are afterwards what they were
    before the activation. *)
Theorem useIntersectionObserver_no_residual (obs : Dom.Observations)
    (ref_current : option Dom.Node) (observer : nat) :
  (forall n, (observer, n) ∉ obs) ->
  let setup := UseIntersectionObserver.effect ref_current observer obs in
  UseIntersectionObserver.cleanup setup.2 observer setup.1 = obs.
Proof.
  intros Hfresh. destruct ref_current as [n|]; [|reflexivity].
  unfold UseIntersectionObserver.effect, UseIntersectionObserver.cleanup,
    Dom.observe, Dom.unobserve, Dom.Observations in *. simpl.
  destruct (decide ((observer, n) ∈ obs)) as [Hin|_]; [now apply Hfresh in Hin|].
  now apply filter_ne_snoc.
Qed.

Lemma useIntersectionObserver_no_residual_witness :
  let setup := UseIntersectionObserver.effect (Some 4%nat) 1%nat [(0%nat, 4%nat)] in
  UseIntersectionObserver.cleanup setup.2 1%nat setup.1 = [(0%nat, 4%nat)].
Proof.
  apply (useIntersectionObserver_no_residual [(0%nat, 4%nat)] (Some 4%nat) 1%nat).
  intros n Hin. apply list_elem_of_singleton in Hin. discriminate.
Defined.

Lemma useHover_no_residual_listeners_witness :
  let '(reg', c) := UseHover.effect (Some 3%nat) 10%nat 11%nat [] in
  UseHover.cleanup c reg' = [].
Proof.
  apply (useHover_no_residual_listeners [] (Some 3%nat) 10%nat 11%nat).
  - lia.
  - intros n type Hin. now apply elem_of_nil in Hin.
  - intros n type Hin. now apply elem_of_nil in Hin.
Defined.

(** ** useTimeout *)

Section UseTimeoutFacts.
Import Timers UseTimeout.
Local Open Scope nat_scope.
Context {C : Type}.

Lemma useTimeout_waiting (d : nat) (tm : Timer unit) (renders : list (nat * C)) :
  forall (sys : Host unit * Hook C) (cb : C),
  queue sys.1 = [tm] -> savedCallback sys.2 = Some cb ->
  delay sys.2 = Some d -> calls sys.2 = [] ->
  Forall (fun r => r.1 < due tm) renders ->
  let sys' := foldl render sys ((fun r => (r, Some d)) <$> renders) in
  queue sys'.1 = [tm]
  /\ savedCallback sys'.2 = Some (List.last (snd <$> renders) cb)
  /\ delay sys'.2 = Some d /\ calls sys'.2 = [].
Proof.
  induction renders as [|r renders IH]; intros sys cb Hq Hcb Hd Hcalls Hall.
  { now repeat split. }
  apply Forall_cons in Hall as [Hr Hall].
  change (foldl render sys ((fun r => (r, Some d)) <$> r :: renders))
    with (foldl render (render sys (r, Some d))
            ((fun r => (r, Some d)) <$> renders)).
  assert (Hstep : queue (render sys (r, Some d)).1 = [tm]
          /\ savedCallback (render sys (r, Some d)).2 = Some r.2
          /\ delay (render sys (r, Some d)).2 = Some d
          /\ calls (render sys (r, Some d)).2 = []).
  { unfold render, advance. simpl.
    rewrite Hq, runDue_single_pending by exact Hr. simpl.
    rewrite Hd. case_decide; [|congruence]. now repeat split. }
  destruct Hstep as (Hq' & Hcb' & Hd' & Hcalls').
  destruct (IH _ r.2 Hq' Hcb' Hd' Hcalls' Hall) as (? & Hlast & ? & ?).
  repeat split; try assumption.
  rewrite Hlast. destruct renders as [|r' renders]; [reflexivity|].
  change (List.last (snd <$> r :: r' :: renders) cb)
    with (List.last (r'.2 :: (snd <$> renders)) cb).
  f_equal. apply last_nonempty_default.
Qed.

Lemma useTimeout_idle (renders : list (nat * C)) :
  forall (sys : Host unit * Hook C),
  queue sys.1 = [] -> delay sys.2 = None -> calls sys.2 = [] ->
  let sys' := foldl render sys ((fun r => (r, None)) <$> renders) in
  queue sys'.1 = [] /\ delay sys'.2 = None /\ calls sys'.2 = [].
Proof.
  induction renders as [|r renders IH]; intros sys Hq Hd Hcalls.
  { now repeat split. }
  change (foldl render sys ((fun r => (r, None)) <$> r :: renders))
    with (foldl render (render sys (r, None))
            ((fun r => (r, None)) <$> renders)).
  apply IH; unfold render, advance; simpl; rewrite Hq; simpl;
    rewrite Hd; (case_decide; [|congruence]); simpl;
    first [reflexivity | assumption].
Qed.
End UseTimeoutFacts.

(** [useTimeout]: renders that change the callback while the timer is
    pending do not register it again; it fires once, [delay] ms after the
    mount, and runs the callback of the latest render.  With a null delay
    no timer is ever registered and no callback runs. *)
Theorem useTimeout_runs_latest_callback {C : Type} (d t0 : nat) (callback : C)
    (renders : list (nat * C)) (tEnd : nat) :
  (Forall (fun r => (r.1 < t0 + d)%nat) renders ->
   (t0 + d <= tEnd)%nat ->
   let updates := (fun r => (r, Some d)) <$> renders in
   Timers.pending
     (foldl UseTimeout.render (UseTimeout.mount t0 callback (Some d)) updates).1
   = [((t0 + d)%nat, tt)]
   /\ UseTimeout.calls (UseTimeout.run t0 callback (Some d) updates tEnd).2
      = [((t0 + d)%nat, List.last (snd <$> renders) callback)])
  /\ UseTimeout.calls
       (UseTimeout.run t0 callback None ((fun r => (r, None)) <$> renders) tEnd).2
     = [].
Proof.
  split.
  - intros Hall Hend updates.
    destruct (useTimeout_waiting d
                {| Timers.id := 1; Timers.due := t0 + d; Timers.callback := tt |}
                renders (UseTimeout.mount t0 callback (Some d)) callback)
      as (Hq & Hcb & _ & Hcalls); try reflexivity; [exact Hall|].
    fold updates in Hq, Hcb, Hcalls.
    split; [unfold Timers.pending; now rewrite Hq|].
    unfold UseTimeout.run, Timers.advance. fold updates.
    rewrite Hq, runDue_single_due by exact Hend. simpl.
    unfold UseTimeout.tick. now rewrite Hcb, Hcalls.
  - destruct (useTimeout_idle renders (UseTimeout.mount t0 callback None))
      as (Hq & _ & Hcalls); try reflexivity.
    unfold UseTimeout.run, Timers.advance. now rewrite Hq.
Qed.

Lemma useTimeout_runs_latest_callback_witness :
  UseTimeout.calls
    (UseTimeout.run 0 "first"%string (Some 500%nat)
       ((fun r => (r, Some 500%nat))
          <$> [(100%nat, "second"%string); (300%nat, "third"%string)]) 1000).2
  = [(500%nat, "third"%string)].
Proof.
  refine (proj2 (proj1 (useTimeout_runs_latest_callback 500 0 "first"%string
    [(100%nat, "second"%string); (300%nat, "third"%string)] 1000) _ _)).
  - repeat constructor; simpl; lia.
  - lia.
Defined.

(** ** useTimeoutFn and useDebouncedCallback *)

Section UseTimeoutFnFacts.
Import Timers UseTimeoutFn.
Local Open Scope nat_scope.
Context {C : Type} `{EqDecision C}.

Lemma timeoutFn_runDue t (q : list (Timer C)) : forall (hook : Hook C),
  timeoutRef (runDue fire t q hook).2 = timeoutRef hook
  /\ callback (runDue fire t q hook).2 = callback hook
  /\ delay (runDue fire t q hook).2 = delay hook.
Proof.
  induction q as [|tm q IH]; intros hook; simpl; [done|].
  case_decide; [|done]. now destruct (IH (fire (due tm) (Timers.callback tm) hook)).
Qed.

Lemma timeoutFn_advance t (sys : Host C * Hook C) :
  owns_queue sys -> length (queue sys.1) <= 1 ->
  let sys' := advance fire t sys in
  (owns_queue sys' /\ length (queue sys'.1) <= 1)
  /\ timeoutRef sys'.2 = timeoutRef sys.2
  /\ callback sys'.2 = callback sys.2
  /\ delay sys'.2 = delay sys.2
  /\ now sys'.1 = now sys.1 `max` t.
Proof.
  intros Hown Hlen sys'. unfold sys', advance, owns_queue in *.
  pose proof (timeoutFn_runDue t (queue sys.1) sys.2) as (Href & Hcb & Hd).
  pose proof (runDue_suffix fire t (queue sys.1) sys.2) as Hsuf.
  destruct (runDue fire t (queue sys.1) sys.2) as [q s]; simpl in *.
  rewrite Href. repeat split; try assumption.
  - destruct Hsuf as [pre Hpre]. rewrite Hpre in Hown.
    now apply Forall_app in Hown as [_ Hown].
  - apply suffix_length in Hsuf. lia.
Qed.

Lemma timeoutFn_clear (sys : Host C * Hook C) :
  owns_queue sys ->
  queue (clear sys).1 = [] /\ (clear sys).2 = sys.2
  /\ now (clear sys).1 = now sys.1 /\ nextId (clear sys).1 = nextId sys.1.
Proof.
  unfold owns_queue, clear. intros Hown.
  destruct (timeoutRef sys.2) as [h|] eqn:Href.
  - split; [|now repeat split]. cbn [fst].
    apply clearTimeout_all.
    eapply Forall_impl; [exact Hown|]. simpl. congruence.
  - split; [|now repeat split].
    destruct (queue sys.1) as [|tm q]; [reflexivity|].
    apply Forall_cons in Hown as [Habs _]. discriminate.
Qed.

Lemma timeoutFn_reset (sys : Host C * Hook C) :
  owns_queue sys ->
  let sys' := reset sys in
  callback sys'.2 = callback sys.2 /\ delay sys'.2 = delay sys.2
  /\ (owns_queue sys' /\ length (queue sys'.1) <= 1)
  /\ pending sys'.1
     = match delay sys.2 with
       | Some ms => [(now sys.1 + ms, callback sys.2)]
       | None => []
       end.
Proof.
  intros Hown sys'. unfold sys', reset.
  destruct (timeoutFn_clear sys Hown) as (Hq & Hhook & Hnow & Hid).
  destruct (clear sys) as [host hook]; simpl in *. subst hook.
  destruct (delay sys.2) as [ms|] eqn:Hd; unfold owns_queue, pending, setTimeout;
    simpl; rewrite Hq; simpl.
  - rewrite Hnow. split; [reflexivity|]. split; [reflexivity|].
    split; [|reflexivity]. split; [now apply Forall_singleton|lia].
  - split; [reflexivity|]. split; [exact Hd|].
    split; [|reflexivity]. split; [apply Forall_nil_2|lia].
Qed.

Lemma timeoutFn_step (sys : Host C * Hook C) (e : Event C) :
  owns_queue sys /\ length (queue sys.1) <= 1 ->
  owns_queue (step sys e) /\ length (queue (step sys e).1) <= 1.
Proof.
  intros [Hown Hlen].
  assert (Hadv := fun t => timeoutFn_advance t sys Hown Hlen).
  destruct e as [t cb d|t|t|t]; simpl.
  - destruct (Hadv t) as ([Hown' Hlen'] & _). case_decide; [now split|].
    destruct (timeoutFn_clear _ Hown') as (Hq & Hhook & _).
    destruct (clear (advance fire t sys)) as [host hook]; simpl in *.
    apply timeoutFn_reset. unfold owns_queue. simpl. rewrite Hq.
    apply Forall_nil_2.
  - destruct (Hadv t) as ([Hown' _] & _). now apply timeoutFn_reset.
  - destruct (Hadv t) as ([Hown' _] & _).
    destruct (timeoutFn_clear _ Hown') as (Hq & _).
    unfold owns_queue. rewrite Hq. split; [apply Forall_nil_2|simpl; lia].
  - destruct (Hadv t) as ([Hown' _] & _).
    destruct (timeoutFn_clear _ Hown') as (Hq & _).
    apply timeoutFn_reset. unfold owns_queue. rewrite Hq. apply Forall_nil_2.
Qed.

Lemma timeoutFn_run t0 (cb : C) d es :
  owns_queue (run t0 cb d es) /\ length (queue (run t0 cb d es).1) <= 1.
Proof.
  unfold run.
  assert (Hmount : owns_queue (mount t0 cb d)
                   /\ length (queue (mount t0 cb d).1) <= 1).
  { apply timeoutFn_reset. apply Forall_nil_2. }
  revert Hmount. generalize (mount t0 cb d).
  induction es as [|e es IH]; intros sys Hinv; [exact Hinv|].
  simpl. now apply IH, timeoutFn_step.
Qed.
End UseTimeoutFnFacts.

(** [useTimeoutFn] and [useDebouncedCallback]: whatever renders and calls
    of [reset], [clear] and the debounced callback came before, at most one
    timer is pending; [clear] leaves none; and [reset] or the debounced
    callback leave exactly one, due [delay] ms from the time of the call
    and carrying the current callback.  The mount itself schedules the
    callback, before any call. *)
Theorem useTimeoutFn_single_timer {C : Type} `{EqDecision C}
    (t0 : nat) (cb : C) (d : option nat) (es : list (UseTimeoutFn.Event C))
    (t : nat) :
  let sys := UseTimeoutFn.run t0 cb d es in
  let restarted :=
    match UseTimeoutFn.delay sys.2 with
    | Some ms => [((Timers.now sys.1 `max` t + ms)%nat, UseTimeoutFn.callback sys.2)]
    | None => []
    end in
  (length (Timers.pending sys.1) <= 1)%nat
  /\ Timers.pending (UseTimeoutFn.step sys (UseTimeoutFn.Clear t)).1 = []
  /\ Timers.pending (UseTimeoutFn.step sys (UseTimeoutFn.Reset t)).1 = restarted
  /\ Timers.pending (UseTimeoutFn.step sys (UseTimeoutFn.DebouncedCallback t)).1
     = restarted
  /\ (forall ms, Timers.pending (UseTimeoutFn.mount t0 cb (Some ms)).1
                 = [((t0 + ms)%nat, cb)]).
Proof.
  intros sys restarted.
  destruct (timeoutFn_run t0 cb d es) as [Hown Hlen]. fold sys in Hown, Hlen.
  destruct (timeoutFn_advance t sys Hown Hlen)
    as ([Hown' _] & _ & Hcb & Hd & Hnow).
  destruct (timeoutFn_clear _ Hown') as (Hq & Hhook & Hnow' & _).
  split; [unfold Timers.pending; now rewrite length_map|].
  split; [simpl; unfold Timers.pending; now rewrite Hq|].
  split.
  - simpl. destruct (timeoutFn_reset _ Hown') as (_ & _ & _ & Hp).
    rewrite Hp, Hd, Hcb, Hnow. reflexivity.
  - split; [|intros ms; reflexivity]. simpl.
    assert (Hown'' : UseTimeoutFn.owns_queue
                       (UseTimeoutFn.clear
                          (Timers.advance UseTimeoutFn.fire t sys))).
    { unfold UseTimeoutFn.owns_queue. rewrite Hq. apply Forall_nil_2. }
    destruct (timeoutFn_reset _ Hown'') as (_ & _ & _ & Hp).
    rewrite Hp, Hhook, Hnow', Hd, Hcb, Hnow. reflexivity.
Qed.

(** ** useHoverIntent and useClipboard *)

(** [useHoverIntent]: with no timer pending, a pointer that leaves less
    than 100 ms after it entered never makes [isHovering] true, and its
    timer is gone; a pointer that stays makes it true 100 ms after it
    entered. *)
Theorem useHoverIntent_threshold (sys : Timers.Host unit * UseHoverIntent.Hook)
    (t1 t2 tEnd : nat) :
  Timers.queue sys.1 = [] ->
  let entered := UseHoverIntent.handleMouseEnter t1 sys in
  let due := (Timers.now sys.1 `max` t1 + 100)%nat in
  ((t2 < due)%nat ->
   let left := UseHoverIntent.handleMouseLeave t2 entered in
   Timers.queue left.1 = []
   /\ UseHoverIntent.isHovering left.2 = false
   /\ UseHoverIntent.isHovering
        (Timers.advance UseHoverIntent.fire tEnd left).2 = false)
  /\ ((due <= tEnd)%nat ->
      UseHoverIntent.isHovering
        (Timers.advance UseHoverIntent.fire tEnd entered).2 = true).
Proof.
  intros Hq entered due.
  assert (Hentered : Timers.queue entered.1
                     = [{| Timers.id := Timers.nextId sys.1; Timers.due := due;
                           Timers.callback := tt |}]
                     /\ UseHoverIntent.timeout entered.2
                        = Some (Timers.nextId sys.1)).
  { unfold entered, UseHoverIntent.handleMouseEnter, Timers.advance.
    rewrite Hq. simpl. now split. }
  destruct Hentered as [Hqe Hte]. split.
  - intros Hearly left.
    assert (Hleft : Timers.queue left.1 = []
                    /\ UseHoverIntent.isHovering left.2 = false).
    { unfold left, UseHoverIntent.handleMouseLeave, Timers.advance.
      rewrite Hqe, runDue_single_pending by exact Hearly. simpl.
      rewrite Hte. simpl. split; [|reflexivity].
      rewrite filter_cons_False by (intros Hne; now apply Hne). reflexivity. }
    destruct Hleft as [Hql Hhl]. repeat split; try assumption.
    unfold Timers.advance. now rewrite Hql.
  - intros Hlate. unfold Timers.advance.
    now rewrite Hqe, runDue_single_due by exact Hlate.
Qed.

Lemma useHoverIntent_threshold_witness :
  let sys := UseHoverIntent.mount 0 in
  UseHoverIntent.isHovering
    (Timers.advance UseHoverIntent.fire 5000
       (UseHoverIntent.handleMouseLeave 1099
          (UseHoverIntent.handleMouseEnter 1000 sys))).2 = false.
Proof.
  exact (proj2 (proj2 (proj1 (useHoverIntent_threshold (UseHoverIntent.mount 0)
    1000 1099 5000 eq_refl) ltac:(simpl; lia)))).
Defined.

(** [useClipboard]: the reset timers of successive copies are not
    superseded.  After two copies less than 2 s apart, the flag drops 2 s
    after the first copy, while the second is younger than 2 s, and the
    timer of the second copy is still pending. *)
Theorem useClipboard_first_timer_resets (t0 t1 t2 tEnd : nat) :
  (t0 <= t1)%nat -> (t1 <= t2 < t1 + 2000)%nat ->
  let sys := UseClipboard.copied t2 (UseClipboard.copied t1 (UseClipboard.mount t0)) in
  sys.2 = true
  /\ ((tEnd < t1 + 2000)%nat ->
      (Timers.advance UseClipboard.fire tEnd sys).2 = true)
  /\ ((t1 + 2000 <= tEnd < t2 + 2000)%nat ->
      (Timers.advance UseClipboard.fire tEnd sys).2 = false
      /\ Timers.pending (Timers.advance UseClipboard.fire tEnd sys).1
         = [((t2 + 2000)%nat, tt)]).
Proof.
  intros Ht0 Ht sys.
  assert (Hsys : sys.2 = true
    /\ Timers.queue sys.1
       = [{| Timers.id := 1; Timers.due := t1 + 2000; Timers.callback := tt |};
          {| Timers.id := 2; Timers.due := t2 + 2000; Timers.callback := tt |}]).
  { unfold sys, UseClipboard.copied, UseClipboard.mount, Timers.advance.
    simpl. case_decide; [lia|]. simpl.
    replace (t0 `max` t1)%nat with t1 by lia.
    replace (t1 `max` t2)%nat with t2 by lia.
    case_decide; [|lia]. now split. }
  destruct Hsys as [Hflag Hq]. split; [exact Hflag|]. split.
  - intros Hearly. unfold Timers.advance. rewrite Hq. simpl.
    case_decide; [lia|]. exact Hflag.
  - intros Hlate. unfold Timers.advance, Timers.pending. rewrite Hq. simpl.
    case_decide; [|lia]. simpl. case_decide; [lia|]. now split.
Qed.

Lemma useClipboard_first_timer_resets_witness :
  (Timers.advance UseClipboard.fire 2500
     (UseClipboard.copied 1500
        (UseClipboard.copied 0 (UseClipboard.mount 0)))).2 = false.
Proof.
  exact (proj1 (proj2 (proj2 (useClipboard_first_timer_resets 0 0 1500 2500
    ltac:(lia) ltac:(lia))) ltac:(lia))).
Defined.

(** ** useCountDown, usePreferredLanguage, useUpdateEffect *)

Lemma useCountDown_second (c : Z) :
  UseCountDown.second (UseCountDown.effect c)
  = UseCountDown.effect (if decide (0 < c) then Z.max 0 (c - 1) else c).
Proof.
  unfold UseCountDown.second, UseCountDown.effect. simpl.
  destruct (decide (0 < c)) as [Hpos|Hneg].
  - rewrite bool_decide_eq_true_2 by exact Hpos. case_decide; [lia|reflexivity].
  - now rewrite bool_decide_eq_false_2 by exact Hneg.
Qed.

Lemma useCountDown_effect (start : Z) (n : nat) :
  UseCountDown.useCountDown start n
  = UseCountDown.effect
      (if decide (0 < start) then Z.max 0 (start - Z.of_nat n) else start).
Proof.
  unfold UseCountDown.useCountDown.
  induction n as [|n IH].
  - simpl. unfold UseCountDown.mount. f_equal. case_decide; lia.
  - simpl Nat.iter. rewrite IH, useCountDown_second. f_equal.
    repeat case_decide; lia.
Qed.

(** [useCountDown]: started at a positive [start], the count after [n]
    seconds is [max(0, start - n)], it is never negative, and an interval
    is running exactly while the count is positive; started at zero or
    below, nothing ever runs and the count stays where it is. *)
Theorem useCountDown_after (start : Z) (n : nat) :
  let h := UseCountDown.useCountDown start n in
  UseCountDown.count h
  = (if decide (0 < start) then Z.max 0 (start - Z.of_nat n) else start)
  /\ UseCountDown.interval h = bool_decide (0 < UseCountDown.count h).
Proof.
  intros h. unfold h. rewrite useCountDown_effect. now split.
Qed.

(** [usePreferredLanguage]: the first render raises exactly when the
    environment is ready and [navigator.languages] is undefined, and then
    with the [TypeError] of [Array.from].  In every other case the hook
    returns, and after the mount effect [isSupported] is true exactly when
    the environment is ready and [navigator.languages] is a non-empty list;
    [navigator.language] does not decide it. *)
Theorem usePreferredLanguage_isSupported (env : Env.Env)
    (nav : UsePreferredLanguage.LanguageNavigator) :
  (Env.isReady env = true /\ UsePreferredLanguage.navLanguages nav = None ->
   UsePreferredLanguage.usePreferredLanguage env nav
   = Throw (TypeError "undefined is not iterable"))
  /\ (~ (Env.isReady env = true /\ UsePreferredLanguage.navLanguages nav = None) ->
      exists s,
        UsePreferredLanguage.usePreferredLanguage env nav = Ok s
        /\ UsePreferredLanguage.isSupported s
           = Env.isReady env
             && match UsePreferredLanguage.navLanguages nav with
                | Some (_ :: _) => true
                | _ => false
                end).
Proof.
  unfold UsePreferredLanguage.usePreferredLanguage,
    UsePreferredLanguage.initialState, UsePreferredLanguage.effect.
  split.
  - intros [-> ->]. reflexivity.
  - intros Hnot. destruct (Env.isReady env); [|eexists; now split].
    destruct (UsePreferredLanguage.navLanguages nav) as [[|l ls]|];
      [| |now destruct Hnot];
      destruct (Storage.truthy (UsePreferredLanguage.navLanguage nav));
      eexists; split; reflexivity.
Qed.

Lemma usePreferredLanguage_isSupported_witness :
  let env :=
    {| Env.window := Some {| Env.innerWidth := 1280; Env.innerHeight := 720;
                             Env.hasDocument := true |};
       Env.navigator := Some {| Env.hasGetBattery := false |};
       Env.localStorage := None |} in
  UsePreferredLanguage.usePreferredLanguage env
    {| UsePreferredLanguage.navLanguage := Some "en"%string;
       UsePreferredLanguage.navLanguages := None |}
  = Throw (TypeError "undefined is not iterable")
  /\ exists s,
       UsePreferredLanguage.usePreferredLanguage env
         {| UsePreferredLanguage.navLanguage := None;
            UsePreferredLanguage.navLanguages := Some ["en"%string] |} = Ok s
       /\ UsePreferredLanguage.isSupported s = true.
Proof.
  cbv zeta. split.
  - apply (proj1 (usePreferredLanguage_isSupported
      {| Env.window := Some {| Env.innerWidth := 1280; Env.innerHeight := 720;
                               Env.hasDocument := true |};
         Env.navigator := Some {| Env.hasGetBattery := false |};
         Env.localStorage := None |}
      {| UsePreferredLanguage.navLanguage := Some "en"%string;
         UsePreferredLanguage.navLanguages := None |})).
    now split.
  - apply (proj2 (usePreferredLanguage_isSupported
      {| Env.window := Some {| Env.innerWidth := 1280; Env.innerHeight := 720;
                               Env.hasDocument := true |};
         Env.navigator := Some {| Env.hasGetBattery := false |};
         Env.localStorage := None |}
      {| UsePreferredLanguage.navLanguage := None;
         UsePreferredLanguage.navLanguages := Some ["en"%string] |})).
    intros [_ Hnone]. discriminate Hnone.
Defined.

Lemma effectCalls_after_first (ready : bool) (n : nat) :
  UseUpdateEffect.effectCalls ready false n = if ready then n else 0%nat.
Proof.
  induction n as [|n IH]; [now destruct ready|].
  simpl. unfold UseUpdateEffect.runEffect. destruct ready; simpl.
  - now rewrite IH.
  - exact IH.
Qed.

(** [useUpdateEffect]: over [n] runs of the wrapping effect, the wrapped
    effect is called [n - 1] times in a ready environment (every run but
    the first one) and never in one that is not ready. *)
Theorem useUpdateEffect_skips_first (env : Env.Env) (n : nat) :
  UseUpdateEffect.useUpdateEffect env n
  = if Env.isReady env then (n - 1)%nat else 0%nat.
Proof.
  unfold UseUpdateEffect.useUpdateEffect.
  destruct n as [|n]; [now destruct (Env.isReady env)|].
  simpl. unfold UseUpdateEffect.runEffect.
  destruct (Env.isReady env) eqn:Hready; simpl.
  - rewrite effectCalls_after_first. simpl. lia.
  - clear Hready. induction n as [|n IH]; [reflexivity|exact IH].
Qed.

(** ** useScript *)

Section UseScriptFacts.
Import UseScript.
Context (querySelector : string -> list (nat * string) -> Result (option nat)).

Local Abbreviation cache_settled w :=
  (forall src s, cache w !! src = Some s -> s = Ready \/ s = Error).

Local Abbreviation loading_owns i :=
  ((status i = Status Loading -> isScriptExisting i = false)
   /\ (committed i = true -> isScriptExisting i = false -> is_Some (element i))).

Lemma remember_settled (src : string) (s : ScriptStatus) (w : World) :
  s = Ready \/ s = Error -> cache_settled w -> cache_settled (remember src s w).
Proof.
  intros Hs Hc src' s'. unfold remember. case_decide; [apply Hc|]. simpl.
  rewrite lookup_insert. case_decide; [|apply Hc]. now intros [= <-].
Qed.

Lemma render_loading_owns (src : string) (rm : bool) (w : World) (i : Instance) :
  cache_settled w -> render querySelector src rm w = Ok i -> loading_owns i.
Proof.
  intros Hc. unfold render.
  destruct (querySelector src (scripts w)) as [found|e]; [|discriminate].
  intros [= <-]. simpl. split; [|discriminate].
  unfold cachedStatus. destruct (cache w !! src) as [s|] eqn:Hs; simpl.
  - intros [= ->]. destruct (Hc _ _ Hs); discriminate.
  - case_decide; simpl; [discriminate|].
    now destruct found.
Qed.

Lemma effect_loading_owns (i : Instance) (w : World) :
  loading_owns i -> loading_owns (effect i w).2.
Proof.
  intros [Hl _]. unfold effect.
  destruct (isScriptExisting i) eqn:Hex; simpl.
  - split; [|discriminate]. intros Hst. now apply Hl in Hst.
  - split; [reflexivity|]. intros _ _. eauto.
Qed.

Lemma settle_loading_owns (outcome : ScriptStatus) (el : nat) (i : Instance) :
  outcome <> Loading -> loading_owns i -> loading_owns (settle outcome el i).
Proof.
  intros Hne Hi. unfold settle. case_decide; [|exact Hi]. simpl.
  split; [intros [= Heq]; now destruct Hne|apply Hi].
Qed.

Lemma script_step_invariants (p : Page) (e : Event) :
  cache_settled (world p) ->
  (forall n i, instances p !! n = Some i -> loading_owns i) ->
  cache_settled (world (step querySelector p e))
  /\ (forall n i, instances (step querySelector p e) !! n = Some i ->
        loading_owns i).
Proof.
  intros Hc Hi. destruct e as [n src rm|n|el|el|n]; simpl.
  - destruct (instances p !! n) eqn:Hn; [now split|].
    destruct (render querySelector src rm (world p)) as [i|e] eqn:Hr;
      simpl; [|now split].
    split; [exact Hc|]. intros n' i'. rewrite lookup_insert.
    case_decide; [|apply Hi]. intros [= <-].
    eapply render_loading_owns; [exact Hc|exact Hr].
  - destruct (instances p !! n) as [i|] eqn:Hn; [|now split].
    destruct (committed i); [now split|].
    pose proof (effect_loading_owns i (world p) (Hi _ _ Hn)) as Hown.
    assert (Hw : cache (effect i (world p)).1 = cache (world p)).
    { unfold effect. now destruct (isScriptExisting i). }
    destruct (effect i (world p)) as [w i']. simpl in *.
    split; [now rewrite Hw|]. intros n' i''. rewrite lookup_insert.
    case_decide; [|apply Hi]. now intros [= <-].
  - unfold deliver. destruct (listening el p) as [i|]; [|now split]. simpl.
    split; [apply remember_settled; [now left|exact Hc]|].
    intros n i'. rewrite lookup_fmap.
    destruct (instances p !! n) as [i0|] eqn:Hn; [|discriminate].
    intros [= <-]. apply settle_loading_owns; [discriminate|now apply (Hi n)].
  - unfold deliver. destruct (listening el p) as [i|]; [|now split]. simpl.
    split; [apply remember_settled; [now right|exact Hc]|].
    intros n i'. rewrite lookup_fmap.
    destruct (instances p !! n) as [i0|] eqn:Hn; [|discriminate].
    intros [= <-]. apply settle_loading_owns; [discriminate|now apply (Hi n)].
  - destruct (instances p !! n) as [i|] eqn:Hn; [|now split]. simpl. split.
    + destruct (element i) as [el|]; [|exact Hc].
      now destruct (removeOnUnmount i).
    + intros n' i'. rewrite lookup_delete_Some. intros [_ Hn']. now apply (Hi n').
Qed.

Lemma firstWithSrc_absent (src : string) (l : list (nat * string)) :
  src ∉ l.*2 -> firstWithSrc src l = None.
Proof.
  unfold firstWithSrc. induction l as [|[el s] l IH]; intros Hout; [reflexivity|].
  simpl. rewrite fmap_cons, not_elem_of_cons in Hout. destruct Hout as [Hne Hout].
  simpl in Hne. rewrite bool_decide_eq_false_2 by congruence. now apply IH.
Qed.

Lemma firstWithSrc_appended (src : string) (l more : list (nat * string))
    (el : nat) :
  src ∉ l.*2 -> firstWithSrc src (l ++ (el, src) :: more) = Some el.
Proof.
  unfold firstWithSrc. induction l as [|[el' s] l IH]; intros Hout; simpl.
  - now rewrite bool_decide_eq_true_2.
  - rewrite fmap_cons, not_elem_of_cons in Hout. destruct Hout as [Hne Hout].
    simpl in Hne. rewrite bool_decide_eq_false_2 by congruence. now apply IH.
Qed.
End UseScriptFacts.

(** [useScript]: whatever the components do and whatever scripts load or
    fail, and however the selector behaves, the shared status cache only
    ever holds [ready] or [error]; and a component whose status is
    [loading] has found no script at its render and, once its effect has
    run, listens to a script element of its own. *)
Theorem useScript_invariants
    (querySelector : string -> list (nat * string) -> Result (option nat))
    (srcs : list string) (es : list UseScript.Event) :
  let p := UseScript.run querySelector srcs es in
  (forall src s, UseScript.cache (UseScript.world p) !! src = Some s ->
     s = UseScript.Ready \/ s = UseScript.Error)
  /\ (forall n i, UseScript.instances p !! n = Some i ->
      UseScript.status i = UseScript.Status UseScript.Loading ->
      UseScript.isScriptExisting i = false
      /\ (UseScript.committed i = true -> is_Some (UseScript.element i))).
Proof.
  intros p.
  assert (Hinv : (forall src s,
                    UseScript.cache (UseScript.world p) !! src = Some s ->
                    s = UseScript.Ready \/ s = UseScript.Error)
    /\ (forall n i, UseScript.instances p !! n = Some i ->
          (UseScript.status i = UseScript.Status UseScript.Loading ->
           UseScript.isScriptExisting i = false)
          /\ (UseScript.committed i = true ->
              UseScript.isScriptExisting i = false ->
              is_Some (UseScript.element i)))).
  { unfold p, UseScript.run.
    assert (Hinit : (forall src s,
       UseScript.cache (UseScript.world (UseScript.page srcs)) !! src = Some s ->
       s = UseScript.Ready \/ s = UseScript.Error)
      /\ (forall n i, UseScript.instances (UseScript.page srcs) !! n = Some i ->
          (UseScript.status i = UseScript.Status UseScript.Loading ->
           UseScript.isScriptExisting i = false)
          /\ (UseScript.committed i = true ->
              UseScript.isScriptExisting i = false ->
              is_Some (UseScript.element i)))).
    { split; [intros src s|intros n i]; simpl; now rewrite lookup_empty. }
    revert Hinit. generalize (UseScript.page srcs).
    induction es as [|e es IH]; intros q Hinv; [exact Hinv|].
    simpl. apply IH. destruct Hinv as [Hc Hi].
    now apply script_step_invariants. }
  destruct Hinv as [Hc Hi]. split; [exact Hc|].
  intros n i Hn Hst. destruct (Hi n i Hn) as [Hl Hown].
  split; [now apply Hl|]. intros Hcom. apply Hown; [exact Hcom|now apply Hl].
Qed.

Section UseScriptCommits.
Import UseScript.
Context (querySelector : string -> list (nat * string) -> Result (option nat)).

Lemma step_render_found (p : Page) (n : nat) (src : string) (rm : bool)
    (found : option nat) :
  instances p !! n = None ->
  querySelector src (scripts (world p)) = Ok found ->
  step querySelector p (Render n src rm)
  = {| world := world p;
       instances :=
         <[n := {| src := src; removeOnUnmount := rm;
                   status :=
                     default (Status (match found with
                                      | Some _ => Ready
                                      | None => Loading
                                      end))
                       (cachedStatus src (world p));
                   isScriptExisting :=
                     match found with Some _ => true | None => false end;
                   committed := false; element := None |}]> (instances p);
       raised := raised p |}.
Proof.
  intros Hn Hq. unfold step, render. rewrite Hn, Hq. now destruct found.
Qed.

Lemma step_render_raises (p : Page) (n : nat) (src : string) (rm : bool)
    (e : JsError) :
  instances p !! n = None ->
  querySelector src (scripts (world p)) = Throw e ->
  step querySelector p (Render n src rm)
  = {| world := world p; instances := instances p;
       raised := raised p ++ [(n, e)] |}.
Proof. intros Hn Hq. unfold step, render. now rewrite Hn, Hq. Qed.

Lemma step_effect_pending (p : Page) (n : nat) (i : Instance) :
  instances p !! n = Some i -> committed i = false ->
  step querySelector p (Effect n)
  = {| world := (effect i (world p)).1;
       instances := <[n := (effect i (world p)).2]> (instances p);
       raised := raised p |}.
Proof.
  intros Hn Hc. unfold step. rewrite Hn, Hc.
  now destruct (effect i (world p)).
Qed.
End UseScriptCommits.

(** [useScript], two components asking for the same script, which is not
    in the document, with a [src] that the selector takes as it is.  What
    each reports is the cached status if there is one (or the member of
    [Object.prototype] that the cache lookup finds) and otherwise depends
    on the commits.  Mounted in two commits, the first component appends
    the script and reports [loading]; the second finds it, appends nothing,
    listens to nothing and reports [ready] although the script has not
    loaded.  Mounted in one commit, both render before either effect runs:
    both find nothing, both report [loading] and both append a script
    element, so that the document holds two for the same [src]. *)
Theorem useScript_activation
    (querySelector : string -> list (nat * string) -> Result (option nat))
    (p : UseScript.Page) (n1 n2 : nat) (src : string) (rm1 rm2 : bool) :
  (forall scripts,
     querySelector src scripts = Ok (UseScript.firstWithSrc src scripts)) ->
  n1 <> n2 ->
  UseScript.instances p !! n1 = None ->
  UseScript.instances p !! n2 = None ->
  src ∉ (UseScript.scripts (UseScript.world p)).*2 ->
  let w := UseScript.world p in
  let el := UseScript.nextElement w in
  let reported (otherwise : UseScript.ScriptStatus) :=
    match UseScript.cache w !! src with
    | Some cached => UseScript.Status cached
    | None =>
        if decide (src ∈ objectPrototype) then UseScript.Member src
        else UseScript.Status otherwise
    end in
  let apart :=
    foldl (UseScript.step querySelector) p
      [UseScript.Render n1 src rm1; UseScript.Effect n1;
       UseScript.Render n2 src rm2; UseScript.Effect n2] in
  let together :=
    foldl (UseScript.step querySelector) p
      [UseScript.Render n1 src rm1; UseScript.Render n2 src rm2;
       UseScript.Effect n1; UseScript.Effect n2] in
  (UseScript.scripts (UseScript.world apart) = UseScript.scripts w ++ [(el, src)]
   /\ UseScript.instances apart !! n1
      = Some {| UseScript.src := src; UseScript.removeOnUnmount := rm1;
                UseScript.status := reported UseScript.Loading;
                UseScript.isScriptExisting := false;
                UseScript.committed := true;
                UseScript.element := Some el |}
   /\ UseScript.instances apart !! n2
      = Some {| UseScript.src := src; UseScript.removeOnUnmount := rm2;
                UseScript.status := reported UseScript.Ready;
                UseScript.isScriptExisting := true;
                UseScript.committed := true;
                UseScript.element := None |})
  /\ (UseScript.scripts (UseScript.world together)
      = UseScript.scripts w ++ [(el, src); (S el, src)]
      /\ UseScript.instances together !! n1
         = Some {| UseScript.src := src; UseScript.removeOnUnmount := rm1;
                   UseScript.status := reported UseScript.Loading;
                   UseScript.isScriptExisting := false;
                   UseScript.committed := true;
                   UseScript.element := Some el |}
      /\ UseScript.instances together !! n2
         = Some {| UseScript.src := src; UseScript.removeOnUnmount := rm2;
                   UseScript.status := reported UseScript.Loading;
                   UseScript.isScriptExisting := false;
                   UseScript.committed := true;
                   UseScript.element := Some (S el) |}).
Proof.
  intros Hq Hne Hn1 Hn2 Hout w el reported apart together.
  assert (Hrep : forall otherwise,
            default (UseScript.Status otherwise) (UseScript.cachedStatus src w)
            = reported otherwise).
  { intros otherwise. unfold reported, UseScript.cachedStatus.
    destruct (UseScript.cache w !! src); [reflexivity|]. now case_decide. }
  assert (Hnone : UseScript.firstWithSrc src (UseScript.scripts w) = None)
    by now apply firstWithSrc_absent.
  pose (instance committed rm existing element :=
          {| UseScript.src := src; UseScript.removeOnUnmount := rm;
             UseScript.status :=
               reported (if existing : bool then UseScript.Ready
                         else UseScript.Loading);
             UseScript.isScriptExisting := existing;
             UseScript.committed := committed; UseScript.element := element |}).
  assert (Hrender : forall (q : UseScript.Page) n rm found,
            UseScript.instances q !! n = None ->
            UseScript.cache (UseScript.world q) = UseScript.cache w ->
            UseScript.firstWithSrc src (UseScript.scripts (UseScript.world q))
            = found ->
            UseScript.step querySelector q (UseScript.Render n src rm)
            = {| UseScript.world := UseScript.world q;
                 UseScript.instances :=
                   <[n := instance false rm
                            (match found with Some _ => true | None => false end)
                            None]> (UseScript.instances q);
                 UseScript.raised := UseScript.raised q |}).
  { intros q n rm found Hn Hcache Hfound.
    rewrite (step_render_found _ q n src rm found Hn)
      by (rewrite Hq; now f_equal).
    do 2 f_equal. unfold instance. rewrite <- Hrep. f_equal.
    unfold UseScript.cachedStatus. rewrite Hcache. now destruct found. }
  assert (Heffect : forall (q : UseScript.Page) n rm existing,
            UseScript.instances q !! n = Some (instance false rm existing None) ->
            UseScript.step querySelector q (UseScript.Effect n)
            = if existing
              then {| UseScript.world := UseScript.world q;
                      UseScript.instances :=
                        <[n := instance true rm true None]> (UseScript.instances q);
                      UseScript.raised := UseScript.raised q |}
              else {| UseScript.world :=
                        {| UseScript.scripts :=
                             UseScript.scripts (UseScript.world q)
                             ++ [(UseScript.nextElement (UseScript.world q), src)];
                           UseScript.cache := UseScript.cache (UseScript.world q);
                           UseScript.nextElement :=
                             S (UseScript.nextElement (UseScript.world q)) |};
                      UseScript.instances :=
                        <[n := instance true rm false
                                 (Some (UseScript.nextElement (UseScript.world q)))]>
                          (UseScript.instances q);
                      UseScript.raised := UseScript.raised q |}).
  { intros q n rm existing Hn.
    rewrite (step_effect_pending _ q n _ Hn eq_refl).
    now destruct existing. }
  split.
  - assert (Hpage : apart
      = {| UseScript.world :=
             {| UseScript.scripts := UseScript.scripts w ++ [(el, src)];
                UseScript.cache := UseScript.cache w;
                UseScript.nextElement := S el |};
           UseScript.instances :=
             <[n2 := instance true rm2 true None]>
               (<[n2 := instance false rm2 true None]>
                  (<[n1 := instance true rm1 false (Some el)]>
                     (<[n1 := instance false rm1 false None]>
                        (UseScript.instances p))));
           UseScript.raised := UseScript.raised p |}).
    { unfold apart. cbn [foldl].
      rewrite (Hrender p n1 rm1 None Hn1 eq_refl Hnone).
      rewrite (Heffect _ n1 rm1 false) by apply lookup_insert_eq.
      rewrite (Hrender _ n2 rm2 (Some el));
        [|cbn [UseScript.instances];
          now rewrite !lookup_insert_ne by congruence
         |reflexivity
         |cbn [UseScript.world UseScript.scripts];
          now apply firstWithSrc_appended].
      now rewrite (Heffect _ n2 rm2 true) by apply lookup_insert_eq. }
    rewrite Hpage. cbn [UseScript.world UseScript.instances UseScript.scripts].
    split; [reflexivity|]. split.
    + now rewrite !lookup_insert_ne, lookup_insert_eq by congruence.
    + now rewrite lookup_insert_eq.
  - assert (Hpage : together
      = {| UseScript.world :=
             {| UseScript.scripts :=
                  (UseScript.scripts w ++ [(el, src)]) ++ [(S el, src)];
                UseScript.cache := UseScript.cache w;
                UseScript.nextElement := S (S el) |};
           UseScript.instances :=
             <[n2 := instance true rm2 false (Some (S el))]>
               (<[n1 := instance true rm1 false (Some el)]>
                  (<[n2 := instance false rm2 false None]>
                     (<[n1 := instance false rm1 false None]>
                        (UseScript.instances p))));
           UseScript.raised := UseScript.raised p |}).
    { unfold together. cbn [foldl].
      rewrite (Hrender p n1 rm1 None Hn1 eq_refl Hnone).
      rewrite (Hrender _ n2 rm2 None);
        [|cbn [UseScript.instances]; now rewrite lookup_insert_ne
         |reflexivity|exact Hnone].
      rewrite (Heffect _ n1 rm1 false)
        by (cbn [UseScript.instances];
            now rewrite lookup_insert_ne, lookup_insert_eq by congruence).
      now rewrite (Heffect _ n2 rm2 false)
        by (cbn [UseScript.instances];
            now rewrite lookup_insert_ne, lookup_insert_eq by congruence). }
    rewrite Hpage. cbn [UseScript.world UseScript.instances UseScript.scripts].
    split; [now rewrite <- app_assoc|]. split.
    + now rewrite lookup_insert_ne, lookup_insert_eq by congruence.
    + now rewrite lookup_insert_eq.
Qed.

Lemma useScript_activation_witness :
  let p := UseScript.page ["/a.js"%string] in
  let events first second :=
    [UseScript.Render 1 "/lib.js" false; first; second; UseScript.Effect 2] in
  let apart :=
    foldl (UseScript.step UseScript.plainSelector) p
      (events (UseScript.Effect 1) (UseScript.Render 2 "/lib.js" false)) in
  let together :=
    foldl (UseScript.step UseScript.plainSelector) p
      (events (UseScript.Render 2 "/lib.js" false) (UseScript.Effect 1)) in
  (UseScript.scripts (UseScript.world apart)
   = [(0%nat, "/a.js"%string); (1%nat, "/lib.js"%string)]
   /\ UseScript.status <$> UseScript.instances apart !! 2%nat
      = Some (UseScript.Status UseScript.Ready))
  /\ (UseScript.scripts (UseScript.world together)
      = [(0%nat, "/a.js"%string); (1%nat, "/lib.js"%string);
         (2%nat, "/lib.js"%string)]
      /\ UseScript.status <$> UseScript.instances together !! 2%nat
         = Some (UseScript.Status UseScript.Loading)).
Proof.
  cbv zeta.
  assert (Hnew : "/lib.js"%string
                 ∉ (UseScript.scripts
                      (UseScript.world (UseScript.page ["/a.js"%string]))).*2).
  { by_decision. }
  pose proof (useScript_activation UseScript.plainSelector
    (UseScript.page ["/a.js"%string]) 1%nat 2%nat "/lib.js" false false
    (fun _ => eq_refl) ltac:(discriminate) eq_refl eq_refl Hnew) as H.
  cbv zeta in H. destruct H as [(Hs & _ & H2) [Hs' [_ H2']]].
  split; split.
  - exact Hs.
  - rewrite H2. reflexivity.
  - exact Hs'.
  - rewrite H2'. reflexivity.
Defined.

(** ** The battery listeners *)

Section BatteryListenerFacts.
Import Dom UseBatteryListeners.

Lemma addEventListener_fresh (node : Node) (type : string) (cb : nat)
    (reg : list (nat * (string * nat))) :
  (node, (type, cb)) ∉ reg ->
  addEventListener node type cb reg = reg ++ [(node, (type, cb))].
Proof. intros Hnew. unfold addEventListener, Registry, Listener, Node in *. case_decide; [done|reflexivity]. Qed.

Lemma removeEventListener_skip (node : Node) (type : string) (cb : nat)
    (x : nat * (string * nat)) (reg : list (nat * (string * nat))) :
  x <> (node, (type, cb)) ->
  removeEventListener node type cb (x :: reg)
  = x :: removeEventListener node type cb reg.
Proof. intros Hne. unfold removeEventListener, Registry, Listener, Node in *. now rewrite filter_cons_True. Qed.

Lemma removeEventListener_hit (node : Node) (type : string) (cb : nat)
    (reg : list (nat * (string * nat))) :
  removeEventListener node type cb ((node, (type, cb)) :: reg)
  = removeEventListener node type cb reg.
Proof.
  unfold removeEventListener, Registry, Listener, Node in *.
  now rewrite filter_cons_False by (intros Hne; now apply Hne).
Qed.

Lemma removeEventListener_app_fresh (node : Node) (type : string) (cb : nat)
    (reg l : list (nat * (string * nat))) :
  (node, (type, cb)) ∉ reg ->
  removeEventListener node type cb (reg ++ l)
  = reg ++ removeEventListener node type cb l.
Proof.
  intros Hnew. unfold removeEventListener, Registry, Listener, Node in *.
  now rewrite filter_app, (filter_ne_absent _ reg Hnew).
Qed.
End BatteryListenerFacts.

Lemma removeEventListener_nil (node : Dom.Node) (type : string) (cb : nat) :
  Dom.removeEventListener node type cb [] = [].
Proof. reflexivity. Qed.

(** [useBattery]: when [getBattery()] resolves before the cleanup runs, the
    cleanup removes the four listeners it registered; when the cleanup runs
    first it removes nothing, and the four listeners registered by the
    later resolution stay on the battery manager. *)
Theorem useBattery_listeners (reg : Dom.Registry) (b : Dom.Node) (cb : nat) :
  (forall n type, (n, (type, cb)) ∉ reg) ->
  let r := UseBatteryListeners.resolved b cb reg in
  Dom.listenerCount r.1 = (Dom.listenerCount reg + 4)%nat
  /\ UseBatteryListeners.cleanup r.2 cb r.1 = reg
  /\ (UseBatteryListeners.resolved b cb
        (UseBatteryListeners.cleanup None cb reg)).1 = r.1.
Proof.
  intros Hfresh r.
  assert (Hr : r = (reg ++ [(b, ("levelchange"%string, cb));
                            (b, ("chargingchange"%string, cb));
                            (b, ("chargingtimechange"%string, cb));
                            (b, ("dischargingtimechange"%string, cb))],
                    Some b)).
  { unfold r, UseBatteryListeners.resolved.
    rewrite (addEventListener_fresh b "levelchange") by apply Hfresh.
    rewrite (addEventListener_fresh b "chargingchange").
    2:{ intros Hin. apply elem_of_app in Hin as [Hin|Hin];
          [now apply Hfresh in Hin|].
        apply list_elem_of_singleton in Hin. discriminate. }
    rewrite (addEventListener_fresh b "chargingtimechange").
    2:{ intros Hin. apply elem_of_app in Hin as [Hin|Hin].
        - apply elem_of_app in Hin as [Hin|Hin]; [now apply Hfresh in Hin|].
          apply list_elem_of_singleton in Hin. discriminate.
        - apply list_elem_of_singleton in Hin. discriminate. }
    rewrite (addEventListener_fresh b "dischargingtimechange").
    2:{ intros Hin. apply elem_of_app in Hin as [Hin|Hin].
        - apply elem_of_app in Hin as [Hin|Hin].
          + apply elem_of_app in Hin as [Hin|Hin]; [now apply Hfresh in Hin|].
            apply list_elem_of_singleton in Hin. discriminate.
          + apply list_elem_of_singleton in Hin. discriminate.
        - apply list_elem_of_singleton in Hin. discriminate. }
    now rewrite <- !app_assoc. }
  split; [|split].
  - rewrite Hr. unfold Dom.listenerCount. simpl. rewrite length_app. reflexivity.
  - rewrite Hr. unfold UseBatteryListeners.cleanup. simpl.
    do 4 (rewrite removeEventListener_app_fresh by apply Hfresh;
          repeat first [ rewrite removeEventListener_hit
                       | rewrite removeEventListener_skip by (intros [=]) ];
          rewrite removeEventListener_nil).
    apply app_nil_r.
  - reflexivity.
Qed.

Lemma useBattery_listeners_witness :
  UseBatteryListeners.cleanup (UseBatteryListeners.resolved 7%nat 1%nat []).2 1%nat
    (UseBatteryListeners.resolved 7%nat 1%nat []).1 = [].
Proof.
  refine (proj1 (proj2 (useBattery_listeners [] 7%nat 1%nat _))).
  intros n type Hin. now apply elem_of_nil in Hin.
Defined.

(** ** More on useDragDrop, useFetch and useFetchRetry *)

(** [useDragDrop]: a drop reads the dragged item from the [text/plain]
    entry of the store that the drop event carries, whatever the state of
    the hook, reports it to [onDrop] with the drop target and records it in
    [draggedItemId].  The store that [handleDragStart] has written for
    [dragId] reads back as [dragId]; any other text in the store, as that of
    a drag that started outside the bound elements, is taken for a dragged
    item as well, and a store with no [text/plain] entry gives the empty
    string. *)
Theorem useDragDrop_drop_pairs (es : list UseDragDrop.DragEvent)
    (dragId dropId : string) (dt0 dt : UseDragDrop.DataTransfer)
    (s0 : UseDragDrop.DragDropState) :
  let m := UseDragDrop.run es in
  let drop store := UseDragDrop.run (es ++ [UseDragDrop.Drop dropId store]) in
  (let m' := drop (UseDragDrop.handleDragStart dragId dt0 s0).1 in
   UseDragDrop.dropped m' = UseDragDrop.dropped m ++ [(dragId, dropId)]
   /\ UseDragDrop.draggedItemId (UseDragDrop.state m') = Some dragId)
  /\ (forall text, UseDragDrop.items dt !! "text/plain"%string = Some text ->
      UseDragDrop.dropped (drop dt) = UseDragDrop.dropped m ++ [(text, dropId)]
      /\ UseDragDrop.draggedItemId (UseDragDrop.state (drop dt)) = Some text)
  /\ (UseDragDrop.items dt !! "text/plain"%string = None ->
      UseDragDrop.dropped (drop dt)
      = UseDragDrop.dropped m ++ [(""%string, dropId)]
      /\ UseDragDrop.draggedItemId (UseDragDrop.state (drop dt))
         = Some ""%string).
Proof.
  intros m drop. unfold drop, m. rewrite !run_snoc.
  split; [|split].
  - simpl. unfold UseDragDrop.getData. simpl. rewrite lookup_insert_eq.
    now split.
  - intros text Htext. simpl. unfold UseDragDrop.getData. rewrite Htext.
    now split.
  - intros Hnone. simpl. unfold UseDragDrop.getData. rewrite Hnone.
    now split.
Qed.

Lemma useDragDrop_drop_pairs_witness :
  let foreign := UseDragDrop.setData "text/plain" "https://example.org/"
                   UseDragDrop.emptyTransfer in
  let es := [UseDragDrop.DragEnter "zone"; UseDragDrop.Render] in
  UseDragDrop.dropped
    (UseDragDrop.run (es ++ [UseDragDrop.Drop "zone" foreign]))
  = [("https://example.org/", "zone")]%string
  /\ UseDragDrop.dropped
       (UseDragDrop.run (es ++ [UseDragDrop.Drop "zone" UseDragDrop.emptyTransfer]))
     = [("", "zone")]%string.
Proof.
  split.
  - refine (proj1 (proj1 (proj2 (useDragDrop_drop_pairs
      [UseDragDrop.DragEnter "zone"; UseDragDrop.Render] "card" "zone"
      UseDragDrop.emptyTransfer
      (UseDragDrop.setData "text/plain" "https://example.org/"
         UseDragDrop.emptyTransfer)
      UseDragDrop.initialState)) "https://example.org/"%string _)).
    vm_compute. reflexivity.
  - refine (proj1 (proj2 (proj2 (useDragDrop_drop_pairs
      [UseDragDrop.DragEnter "zone"; UseDragDrop.Render] "card" "zone"
      UseDragDrop.emptyTransfer UseDragDrop.emptyTransfer
      UseDragDrop.initialState)) _)).
    vm_compute. reflexivity.
Defined.

Section FetchInvariant.
Import UseFetch.
Context {T : Type}.

(** The states that [fetchData] hands to [setState]. *)
Lemma fetchData_settled (outcome : Settled (Response T)) :
  (exists body,
     fetchData outcome = {| data := body; loading := false; error := None |})
  \/ (exists message,
     fetchData outcome
     = {| data := None; loading := false; error := Some message |}).
Proof.
  unfold fetchData, failed.
  destruct outcome as [[ok statusText [body|m]]|m]; simpl;
    try destruct ok; simpl; eauto.
Qed.

Lemma fetchData_not_loading (outcome : Settled (Response T)) :
  loading (fetchData outcome) = false.
Proof. now destruct (fetchData_settled outcome) as [[? ->]|[? ->]]. Qed.

Lemma step_state (h : Hook T) (e : Event T) :
  state (step h e) = state h
  \/ exists outcome, state (step h e) = fetchData outcome.
Proof.
  destruct e as [u| |request outcome]; simpl.
  - left. destruct (negb (mounted h)); [reflexivity|]. now case_decide.
  - now left.
  - case_decide; [|now left]. unfold setState, forget; simpl.
    destruct (mounted h); [right; now exists outcome|now left].
Qed.
End FetchInvariant.

(** [useFetch]: every reachable state is the initial one (loading, nothing
    settled yet), or the state of a success, with the parsed body in [data]
    (null when the body is the JSON text [null]), [error] null and loading
    false, or the state of a failure, with [data] null, a message in
    [error] and loading false.  So [data] and [error] are never both set.
    Once loading is false it stays false, also while the fetch for a new
    url is under way. *)
Theorem useFetch_state_shape {T : Type} (es es' : list (UseFetch.Event T)) :
  let s := UseFetch.state (UseFetch.run es) in
  (s = UseFetch.initialState
   \/ (exists body,
        s = {| UseFetch.data := body; UseFetch.loading := false;
               UseFetch.error := None |})
   \/ (exists message,
        s = {| UseFetch.data := None; UseFetch.loading := false;
               UseFetch.error := Some message |}))
  /\ (UseFetch.loading s = false ->
      UseFetch.loading (UseFetch.state (UseFetch.run (es ++ es'))) = false).
Proof.
  assert (Hshape : forall (l : list (UseFetch.Event T)) (h : UseFetch.Hook T),
    (UseFetch.state h = UseFetch.initialState
     \/ exists o, UseFetch.state h = UseFetch.fetchData o) ->
    UseFetch.state (foldl UseFetch.step h l) = UseFetch.initialState
    \/ exists o, UseFetch.state (foldl UseFetch.step h l) = UseFetch.fetchData o).
  { induction l as [|e l IH]; intros h Hh; [exact Hh|]. simpl. apply IH.
    destruct (step_state h e) as [-> | Hset]; [exact Hh|now right]. }
  assert (Hstay : forall (l : list (UseFetch.Event T)) (h : UseFetch.Hook T),
    UseFetch.loading (UseFetch.state h) = false ->
    UseFetch.loading (UseFetch.state (foldl UseFetch.step h l)) = false).
  { induction l as [|e l IH]; intros h Hh; [exact Hh|]. simpl. apply IH.
    destruct (step_state h e) as [-> | [o ->]]; [exact Hh|].
    apply fetchData_not_loading. }
  intros s. split.
  - destruct (Hshape es UseFetch.beforeMount (or_introl eq_refl)) as [H|[o H]].
    + now left.
    + right. unfold s, UseFetch.run. rewrite H. apply fetchData_settled.
  - intros Hl. unfold UseFetch.run. rewrite foldl_app. now apply Hstay.
Qed.

(** A response with status 200 whose body is the JSON text [null] is a
    success with nothing in [data]: the state shows neither data nor an
    error. *)
Example useFetch_null_body :
  UseFetch.state (UseFetch.run
    [UseFetch.Render "/a";
     UseFetch.Settle 0 (Fulfilled
       {| UseFetch.ok := true; UseFetch.statusText := "OK";
          UseFetch.json := Fulfilled (@None Z) |})])
  = {| UseFetch.data := None; UseFetch.loading := false;
       UseFetch.error := None |}.
Proof. reflexivity. Qed.

Lemma useFetch_state_shape_witness :
  UseFetch.loading (UseFetch.state (UseFetch.run
    ([UseFetch.Render "/a"; UseFetch.Settle 0 (Rejected (A:=UseFetch.Response Z) "offline")]
     ++ [UseFetch.Render "/b"]))) = false.
Proof.
  apply (proj2 (useFetch_state_shape
    [UseFetch.Render "/a"; UseFetch.Settle 0 (Rejected (A:=UseFetch.Response Z) "offline")]
    [UseFetch.Render "/b"])).
  reflexivity.
Defined.

Section RetryBound.
Import UseFetchRetry.
Context {T : Type} (retries : Z) (net : nat -> Settled (Response T)).

Lemma loop_one_commit : forall (fuel : nat) (r : Run T),
  (Z.to_nat (retries - attempts r) <= fuel)%nat ->
  attempts r < retries -> commits r = [] ->
  exists r', loop retries net fuel r = Some r'
    /\ (calls r < calls r' <= calls r + Z.to_nat (retries - attempts r))%nat
    /\ exists s, commits r' = [s] /\ loading s = false.
Proof.
  induction fuel as [|fuel IH]; intros r Hfuel Hlt Hnil; [lia|].
  simpl. case_decide; [|lia].
  destruct (attempt (net (calls r))) as [message|d].
  - destruct (decide (attempts r + 1 >= retries)) as [Hlast|Hmore].
    + eexists. split.
      * destruct fuel; simpl; (case_decide; [lia|reflexivity]).
      * simpl. split; [lia|]. rewrite Hnil. now eexists.
    + destruct (IH {| commits := commits r; calls := S (calls r);
                      attempts := attempts r + 1 |})
        as (r' & Hrun & Hcalls & Hcommit); simpl; [lia|lia|exact Hnil|].
      exists r'. split; [exact Hrun|]. split; [simpl in Hcalls; lia|exact Hcommit].
  - eexists. split; [reflexivity|]. simpl. split; [lia|].
    rewrite Hnil. now eexists.
Qed.
End RetryBound.

(** [useFetchRetry]: however the network answers, one [fetchData] call
    ends; with [retries >= 1] it makes between one and [retries] requests
    and calls [setState] exactly once, with loading false; with
    [retries <= 0] it makes no request and never calls [setState], so the
    hook stays in its loading state. *)
Theorem useFetchRetry_one_commit {T : Type} (retries : Z)
    (net : nat -> Settled (UseFetchRetry.Response T)) :
  exists r, UseFetchRetry.fetchData retries net = Some r
    /\ (if decide (0 < retries)
        then (1 <= UseFetchRetry.calls r <= Z.to_nat retries)%nat
             /\ exists s, UseFetchRetry.commits r = [s]
                          /\ UseFetchRetry.loading s = false
        else r = UseFetchRetry.started).
Proof.
  destruct (decide (0 < retries)) as [Hpos|Hneg].
  - destruct (loop_one_commit retries net (Z.to_nat retries) UseFetchRetry.started)
      as (r & Hrun & Hcalls & Hcommit); simpl; [lia|lia|reflexivity|].
    exists r. split; [exact Hrun|]. split; [simpl in Hcalls; lia|exact Hcommit].
  - exists UseFetchRetry.started. split; [|reflexivity].
    apply fetchData_no_retries. lia.
Qed.

Section AxiosRenders.
Import UseAxiosRenders.
Context {T : Type}.

Lemma step_keeps_cancelled (h : Hook T) (e : Event T) :
  UseAxios.cancelled (cells h) = true ->
  UseAxios.cancelled (cells (step h e)) = true
  /\ exists later, renders (step h e) = renders h ++ later
       /\ Forall (eq true) later.
Proof.
  intros Hc.
  assert (Hnil : exists later, renders h = renders h ++ later
                   /\ Forall (eq true) later).
  { exists []. now rewrite app_nil_r. }
  destruct e as [|i| | |request outcome]; simpl.
  - destruct (mounted h); [|now split]. simpl. split; [exact Hc|].
    exists [true]. rewrite Hc. split; [reflexivity|now constructor].
  - destruct (renders h !! i) as [captured|]; [|now split].
    unfold UseAxios.makeRequest_start.
    destruct captured; simpl; [now split|].
    split; [|exact Hnil]. unfold commit. now destruct (mounted h).
  - split; [|exact Hnil]. unfold commit. now destruct (mounted h).
  - now split.
  - destruct (list_find _ _) as [[? [? captured]]|]; [|now split]. simpl.
    split; [|exact Hnil]. unfold commit. destruct (mounted h); [|exact Hc].
    unfold UseAxios.makeRequest_settle.
    destruct outcome, captured; simpl; exact Hc.
Qed.

Lemma steps_keep_cancelled (es : list (Event T)) : forall h : Hook T,
  UseAxios.cancelled (cells h) = true ->
  UseAxios.cancelled (cells (foldl step h es)) = true
  /\ exists later, renders (foldl step h es) = renders h ++ later
       /\ Forall (eq true) later.
Proof.
  induction es as [|e es IH]; intros h Hc.
  - split; [exact Hc|]. exists []. now rewrite app_nil_r.
  - simpl. destruct (step_keeps_cancelled h e Hc) as (Hc' & l1 & Hr1 & Hall1).
    destruct (IH _ Hc') as (Hc'' & l2 & Hr2 & Hall2).
    split; [exact Hc''|]. exists (l1 ++ l2).
    rewrite Hr2, Hr1, app_assoc. split; [reflexivity|].
    now apply Forall_app.
Qed.

Lemma makeRequest_of_render (h : Hook T) (i : nat) :
  (renders h !! i = Some true -> step h (MakeRequest i) = h)
  /\ (renders h !! i = Some false ->
      issued (step h (MakeRequest i)) = S (issued h)
      /\ inflight (step h (MakeRequest i)) = inflight h ++ [(issued h, false)]).
Proof. split; intros Hi; simpl; rewrite Hi; simpl; [reflexivity|now split]. Qed.

(** While the component is mounted, the [makeRequest] of a render that is
    up to date does what [UseAxios.step] does. *)
Lemma makeRequest_up_to_date (h : Hook T) (i : nat) :
  mounted h = true ->
  renders h !! i = Some (UseAxios.cancelled (cells h)) ->
  current (step h (MakeRequest i))
  = UseAxios.step (current h) UseAxios.MakeRequest.
Proof.
  destruct h as [c m rs fl n]. cbn [mounted renders cells].
  intros -> Hi. unfold step, UseAxios.step, current, commit.
  cbn [mounted renders cells inflight issued]. rewrite Hi.
  cbn [UseAxios.mounted UseAxios.cells UseAxios.inflight UseAxios.issued negb].
  destruct (UseAxios.makeRequest_start _ _) as [s sent].
  now destruct sent.
Qed.
End AxiosRenders.

(** [useAxios]: what [cancelRequest] stops.  Once [cancelled] is set it
    stays set under every later event, every later render sees it set, and
    the [makeRequest] of such a render sends nothing and changes nothing.
    The [makeRequest] of a render that saw [cancelled = false] still sends a
    request when it is called, also after the cancellation. *)
Theorem useAxios_cancel_later_renders {T : Type}
    (es es' : list (UseAxiosRenders.Event T)) :
  let before := UseAxiosRenders.run es in
  let h := UseAxiosRenders.run (es ++ es') in
  UseAxios.cancelled (UseAxiosRenders.cells before) = true ->
  UseAxios.cancelled (UseAxiosRenders.cells h) = true
  /\ (exists later,
        UseAxiosRenders.renders h = UseAxiosRenders.renders before ++ later
        /\ Forall (eq true) later)
  /\ (forall i, (length (UseAxiosRenders.renders before) <= i)%nat ->
        UseAxiosRenders.step h (UseAxiosRenders.MakeRequest i) = h)
  /\ (forall i, UseAxiosRenders.renders h !! i = Some false ->
        UseAxiosRenders.issued
          (UseAxiosRenders.step h (UseAxiosRenders.MakeRequest i))
        = S (UseAxiosRenders.issued h)).
Proof.
  intros before h Hc. unfold h, before, UseAxiosRenders.run in *.
  rewrite foldl_app.
  destruct (steps_keep_cancelled es' _ Hc) as (Hc' & later & Hr & Hall).
  split; [exact Hc'|]. split; [now exists later|]. split.
  - intros i Hi.
    destruct (UseAxiosRenders.renders
                (foldl UseAxiosRenders.step
                   (foldl UseAxiosRenders.step UseAxiosRenders.mount es) es') !! i)
      as [captured|] eqn:Hlook.
    + assert (captured = true) as ->.
      { rewrite Hr in Hlook. rewrite lookup_app_r in Hlook by exact Hi.
        rewrite Forall_forall in Hall. symmetry. apply Hall.
        eapply list_elem_of_lookup_2. exact Hlook. }
      now apply makeRequest_of_render.
    + simpl. now rewrite Hlook.
  - intros i Hi. now apply makeRequest_of_render.
Qed.

Lemma useAxios_cancel_later_renders_witness :
  let es := [UseAxiosRenders.CancelRequest; UseAxiosRenders.Render] in
  UseAxiosRenders.renders (UseAxiosRenders.run (T:=Z) es) = [false; true]
  /\ UseAxiosRenders.step (UseAxiosRenders.run (T:=Z) es)
       (UseAxiosRenders.MakeRequest 1)
     = UseAxiosRenders.run es
  /\ UseAxiosRenders.issued
       (UseAxiosRenders.step (UseAxiosRenders.run (T:=Z) es)
          (UseAxiosRenders.MakeRequest 0)) = 1%nat.
Proof.
  split; [reflexivity|]. split.
  - pose proof (proj1 (proj2 (proj2 (useAxios_cancel_later_renders (T:=Z)
      [UseAxiosRenders.CancelRequest] [UseAxiosRenders.Render] eq_refl)))
      1%nat) as H.
    apply H. simpl. lia.
  - apply (proj2 (proj2 (proj2 (useAxios_cancel_later_renders (T:=Z)
      [UseAxiosRenders.CancelRequest] [UseAxiosRenders.Render] eq_refl)))
      0%nat).
    reflexivity.
Defined.

(** [useDragDrop]: in every reachable state, [isOver] implies that a drop
    target is recorded in [overDropId], and [isDragging] implies that a
    dragged item is recorded in [draggedItemId]. *)
Theorem useDragDrop_flags (es : list UseDragDrop.DragEvent) :
  let s := UseDragDrop.state (UseDragDrop.run es) in
  (UseDragDrop.isOver s = true -> is_Some (UseDragDrop.overDropId s))
  /\ (UseDragDrop.isDragging s = true -> is_Some (UseDragDrop.draggedItemId s)).
Proof.
  unfold UseDragDrop.run.
  assert (Hinit : (UseDragDrop.isOver (UseDragDrop.state UseDragDrop.mount) = true ->
                   is_Some (UseDragDrop.overDropId (UseDragDrop.state UseDragDrop.mount)))
                  /\ (UseDragDrop.isDragging (UseDragDrop.state UseDragDrop.mount) = true ->
                      is_Some (UseDragDrop.draggedItemId
                                 (UseDragDrop.state UseDragDrop.mount)))).
  { split; discriminate. }
  revert Hinit. generalize UseDragDrop.mount as m.
  induction es as [|e es IH]; intros m Hinv; [exact Hinv|].
  simpl. apply IH. destruct Hinv as [Hover Hdrag].
  destruct e as [d dt|d|d|d|d dt|]; simpl.
  - split; [discriminate|eauto].
  - unfold UseDragDrop.handleDragOver. case_decide; simpl; [eauto|now split].
  - split; eauto.
  - unfold UseDragDrop.handleDragLeave. case_decide; simpl;
      [split; [discriminate|exact Hdrag]|now split].
  - split; discriminate.
  - now split.
Qed.

Lemma useDragDrop_flags_witness :
  is_Some (UseDragDrop.overDropId (UseDragDrop.state
    (UseDragDrop.run [UseDragDrop.DragStart "card" UseDragDrop.emptyTransfer;
                      UseDragDrop.DragOver "zone"]))).
Proof.
  exact (proj1 (useDragDrop_flags
    [UseDragDrop.DragStart "card" UseDragDrop.emptyTransfer;
     UseDragDrop.DragOver "zone"]) eq_refl).
Defined.

(** ** useDebounce catches up *)

Section DebounceConvergence.
Import Timers UseDebounce.
Local Open Scope nat_scope.
Context {T : Type} `{EqDecision T} (delay : nat).

Local Abbreviation fire := (@setDebouncedValue T).

(** Either nothing is pending and the debounced value is the input, or the
    one pending timer carries the input and is due within [delay] ms. *)
Local Abbreviation converging sys :=
  ((queue sys.1 = [] /\ debouncedValue sys.2 = value sys.2)
   \/ exists tm, queue sys.1 = [tm] /\ id tm = handler sys.2
                 /\ callback tm = value sys.2
                 /\ due tm <= now sys.1 + delay).

Lemma converging_advance t (sys : Host T * Hook T) :
  converging sys -> converging (advance fire t sys).
Proof.
  intros [[Hq Hv]|(tm & Hq & Hid & Hcb & Hdue)]; unfold advance; rewrite Hq.
  - left. now split.
  - destruct (decide (due tm <= t)) as [Hfire|Hwait].
    + rewrite runDue_single_due by exact Hfire. left. simpl. now split.
    + rewrite runDue_single_pending by lia. right. exists tm. simpl.
      repeat split; try assumption. lia.
Qed.

Lemma converging_owns (sys : Host T * Hook T) : converging sys -> owns_queue sys.
Proof.
  unfold owns_queue. intros [[-> _]|(tm & -> & Hid & _)];
    [apply Forall_nil_2|now apply Forall_singleton].
Qed.

Lemma converging_render (sys : Host T * Hook T) (u : nat * T) :
  converging sys -> converging (render delay sys u).
Proof.
  intros Hc. destruct (decide (u.2 = value sys.2)) as [Hsame|Hchange].
  - rewrite render_same by exact Hsame. now apply converging_advance.
  - destruct (render_change delay sys u (converging_owns sys Hc) Hchange)
      as [(Hnow & Hval & Hq) _]. simpl in *.
    right. eexists. split; [exact Hq|]. simpl. rewrite Hval, Hnow.
    repeat split. lia.
Qed.

Lemma converging_renders (updates : list (nat * T)) :
  forall sys : Host T * Hook T,
  converging sys -> converging (foldl (render delay) sys updates).
Proof.
  induction updates as [|u updates IH]; intros sys Hc; [exact Hc|].
  simpl. now apply IH, converging_render.
Qed.

Lemma converging_done (sys : Host T * Hook T) tEnd :
  converging sys -> now sys.1 + delay <= tEnd ->
  debouncedValue (advance fire tEnd sys).2 = value sys.2
  /\ queue (advance fire tEnd sys).1 = [].
Proof.
  intros [[Hq Hv]|(tm & Hq & Hid & Hcb & Hdue)] Hend; unfold advance; rewrite Hq.
  - now split.
  - rewrite runDue_single_due by lia. simpl. now split.
Qed.
End DebounceConvergence.

(** [useDebounce] catches up: for every trace of renders, once [delay] ms
    have passed since the mount and since every render, the debounced value
    is the input of the last render and no timer is pending. *)
Theorem useDebounce_converges {T : Type} `{EqDecision T} (delay t0 : nat)
    (v0 : T) (updates : list (nat * T)) (tEnd : nat) :
  (t0 + delay <= tEnd)%nat ->
  Forall (fun u => (u.1 + delay <= tEnd)%nat) updates ->
  UseDebounce.debouncedValue (UseDebounce.run delay t0 v0 updates tEnd).2
  = (List.last updates (t0, v0)).2
  /\ Timers.pending (UseDebounce.run delay t0 v0 updates tEnd).1 = [].
Proof.
  intros Ht0 Hall. unfold UseDebounce.run.
  assert (Hc := converging_renders delay updates (UseDebounce.mount delay t0 v0)).
  destruct (converging_done delay
              (foldl (UseDebounce.render delay) (UseDebounce.mount delay t0 v0) updates)
              tEnd) as [Hv Hq].
  - apply Hc. right. eexists. split; [reflexivity|]. simpl. repeat split. lia.
  - assert (Timers.now (foldl (UseDebounce.render delay)
                          (UseDebounce.mount delay t0 v0) updates).1
            <= tEnd - delay)%nat; [|lia].
    apply renders_now; [simpl; lia|].
    eapply Forall_impl; [exact Hall|]. simpl. intros u Hu. lia.
  - split.
    + rewrite Hv. now apply renders_value.
    + unfold Timers.pending. now rewrite Hq.
Qed.

Lemma useDebounce_converges_witness :
  UseDebounce.debouncedValue
    (UseDebounce.run 300 0 "q"%string
       [(100%nat, "qu"%string); (900%nat, "que"%string); (950%nat, "que"%string)]
       1250).2
  = "que"%string.
Proof.
  refine (proj1 (useDebounce_converges 300 0 "q"%string
    [(100%nat, "qu"%string); (900%nat, "que"%string); (950%nat, "que"%string)]
    1250 _ _)).
  - lia.
  - repeat constructor; simpl; lia.
Defined.

(** ** useCookie *)

Section UseCookieFacts.
Import UseCookie.
Local Open Scope string_scope.

Lemma append_nil_r (s : string) : s ++ "" = s.
Proof.
  induction s as [|c s IH]; [reflexivity|].
  change (String c (s ++ "") = String c s). now rewrite IH.
Qed.

Lemma append_snoc (acc : string) c (s : string) :
  (acc ++ String c "") ++ s = acc ++ String c s.
Proof.
  induction acc as [|c' acc IH]; [reflexivity|].
  change (String c' ((acc ++ String c "") ++ s) = String c' (acc ++ String c s)).
  now rewrite IH.
Qed.

Lemma occurs_app c (s1 s2 : string) :
  occurs c (s1 ++ s2) = occurs c s1 || occurs c s2.
Proof.
  induction s1 as [|c' s1 IH]; [reflexivity|].
  change (occurs c (String c' (s1 ++ s2)) = occurs c (String c' s1) || occurs c s2).
  cbn [occurs]. case_decide; [reflexivity|exact IH].
Qed.

Lemma prefix_nil (s : string) : String.prefix "" s = true.
Proof. now destruct s. Qed.

Lemma prefix_app (key : string) : forall name rest : string,
  String.prefix key name = true -> String.prefix key (name ++ rest) = true.
Proof.
  induction key as [|a key IH]; intros name rest Hp; [apply prefix_nil|].
  destruct name as [|b name]; [discriminate|].
  change (String.prefix (String a key) (String b (name ++ rest)) = true).
  cbn [String.prefix] in *.
  destruct (Ascii.ascii_dec a b); [now apply IH|discriminate].
Qed.

(** A piece without the first character of the separator is not split. *)
Lemma split_aux_clean c0 (sepTail : string) (s : string) : forall acc : string,
  occurs c0 s = false ->
  split_aux (String c0 sepTail) 0 acc s = [acc ++ s].
Proof.
  induction s as [|c s IH]; intros acc Hocc; simpl.
  - now rewrite append_nil_r.
  - simpl in Hocc. destruct (decide (c = c0)) as [|Hne]; [discriminate|].
    destruct (Ascii.ascii_dec c0 c) as [Heq|_]; [now subst|].
    rewrite IH by exact Hocc. now rewrite append_snoc.
Qed.

Lemma split_aux_equals (name : string) : forall acc tail : string,
  occurs "="%char name = false ->
  split_aux "=" 0 acc (name ++ "=" ++ tail)
  = (acc ++ name) :: split_aux "=" 0 "" tail.
Proof.
  induction name as [|c name IH]; intros acc tail Hocc.
  - change (split_aux "=" 0 acc (String "="%char tail)
            = (acc ++ "") :: split_aux "=" 0 "" tail).
    cbn [split_aux String.prefix].
    destruct (Ascii.ascii_dec "="%char "="%char) as [_|Hne]; [|now destruct Hne].
    now rewrite prefix_nil, append_nil_r.
  - simpl in Hocc. destruct (decide (c = "="%char)) as [|Hne]; [discriminate|].
    change (split_aux "=" 0 acc (String c (name ++ "=" ++ tail))
            = (acc ++ String c name) :: split_aux "=" 0 "" tail).
    cbn [split_aux String.prefix].
    destruct (Ascii.ascii_dec "="%char c) as [Heq|_]; [now subst|].
    rewrite IH by exact Hocc. now rewrite append_snoc.
Qed.

Lemma split_aux_rows (row : string) : forall acc others : string,
  occurs ";"%char row = false ->
  split_aux "; " 0 acc (row ++ "; " ++ others)
  = (acc ++ row) :: split_aux "; " 0 "" others.
Proof.
  induction row as [|c row IH]; intros acc others Hocc.
  - change (split_aux "; " 0 acc (String ";"%char (String " "%char others))
            = (acc ++ "") :: split_aux "; " 0 "" others).
    cbn [split_aux String.prefix].
    destruct (Ascii.ascii_dec ";"%char ";"%char) as [_|Hne]; [|now destruct Hne].
    destruct (Ascii.ascii_dec " "%char " "%char) as [_|Hne]; [|now destruct Hne].
    rewrite prefix_nil, append_nil_r. reflexivity.
  - simpl in Hocc. destruct (decide (c = ";"%char)) as [|Hne]; [discriminate|].
    change (split_aux "; " 0 acc (String c (row ++ "; " ++ others))
            = (acc ++ String c row) :: split_aux "; " 0 "" others).
    cbn [split_aux String.prefix].
    destruct (Ascii.ascii_dec ";"%char c) as [Heq|_]; [now subst|].
    rewrite IH by exact Hocc. now rewrite append_snoc.
Qed.

Lemma split_rows (row : string) (tail : string) :
  occurs ";"%char row = false ->
  tail = "" \/ (exists others, tail = "; " ++ others) ->
  exists rest, split "; " (row ++ tail) = row :: rest.
Proof.
  intros Hocc [-> | [others ->]].
  - exists []. rewrite append_nil_r. unfold split.
    now rewrite split_aux_clean by exact Hocc.
  - exists (split "; " others). unfold split.
    now rewrite split_aux_rows by exact Hocc.
Qed.
End UseCookieFacts.

(** [useCookie]: the row to read is the first one that merely starts with
    [key].  When the first cookie of [document.cookie] is [name=value] and
    [key] is a prefix of [name] (the name itself, or a shorter string), the
    hook yields that cookie's value up to its first [=], or null when that
    piece is empty, whatever cookies follow. *)
Theorem useCookie_reads_first_prefix_match (key name value tail : string) :
  UseCookie.occurs ";"%char name = false ->
  UseCookie.occurs "="%char name = false ->
  UseCookie.occurs ";"%char value = false ->
  tail = ""%string \/ (exists others, tail = ("; " ++ others)%string) ->
  String.prefix key name = true ->
  UseCookie.useCookie key ((name ++ "=" ++ value) ++ tail)%string
  = Storage.truthy (UseCookie.split "=" value !! 0%nat)
  /\ (UseCookie.occurs "="%char value = false ->
      UseCookie.useCookie key ((name ++ "=" ++ value) ++ tail)%string
      = Storage.truthy (Some value))
  /\ (forall piece rest,
        value = (piece ++ "=" ++ rest)%string ->
        UseCookie.occurs "="%char piece = false ->
        UseCookie.useCookie key ((name ++ "=" ++ value) ++ tail)%string
        = Storage.truthy (Some piece)).
Proof.
  intros Hn1 Hn2 Hv Htail Hprefix.
  assert (Hrow : UseCookie.occurs ";"%char (name ++ "=" ++ value)%string = false).
  { rewrite !occurs_app, Hn1, Hv. reflexivity. }
  destruct (split_rows _ tail Hrow Htail) as [rest Hrows].
  assert (Hread : UseCookie.useCookie key ((name ++ "=" ++ value) ++ tail)%string
                  = Storage.truthy (UseCookie.split "=" value !! 0%nat)).
  { unfold UseCookie.useCookie. rewrite Hrows. simpl List.find.
    rewrite (prefix_app key name _ Hprefix).
    unfold UseCookie.split at 1. now rewrite split_aux_equals by exact Hn2. }
  split; [exact Hread|]. split.
  - intros Hclean. rewrite Hread. unfold UseCookie.split.
    now rewrite split_aux_clean by exact Hclean.
  - intros piece rest' -> Hpiece. rewrite Hread. unfold UseCookie.split.
    now rewrite split_aux_equals by exact Hpiece.
Qed.

Lemma useCookie_reads_first_prefix_match_witness :
  UseCookie.useCookie "user" (("username" ++ "=" ++ "bob") ++ "; user=al")%string
  = Some "bob"%string.
Proof.
  refine (proj1 (proj2 (useCookie_reads_first_prefix_match
    "user" "username" "bob" "; user=al" _ _ _ _ _)) _); try reflexivity.
  right. now exists "user=al"%string.
Defined.
